(** * nfl_stats: play-by-play classification, normalisation and assembly

    A shallow embedding of [nfl_stats/pbp.py] ([parse_play_details],
    [_clean_features], [_loc_to_features], [expand_details]) and of the
    win-probability part of [BoxScore.pbp] in [nfl_stats/boxscores.py].

    Conventions of the embedding:
    - a Python [str] is a [string]; every character is one code point in
      the range 0..255 (ASCII and Latin-1);
    - a finite Python [float] is an exact rational ([Q]); [np.nan] is a
      value of its own;
    - a [dict] is a [gmap string pyval];
    - code that can raise returns a [result]. *)

From Stdlib Require Import ZArith QArith List String Ascii Bool Lia.
From stdpp Require Import gmap strings.

Local Open Scope string_scope.
Local Open Scope Z_scope.

(** ** Python values, exceptions and the built-ins the code uses *)

Module Py.

Inductive pyval : Type :=
| VNone
| VNaN
| VBool (b : bool)
| VInt (z : Z)
| VFloat (q : Q)
| VStr (s : string).

Inductive exn : Type :=
| ValueError | TypeError | KeyError | IndexError
| AttributeError | UnboundLocalError.

Inductive result (A : Type) : Type :=
| Ok (a : A)
| Raise (e : exn).
Arguments Ok {A} a.
Arguments Raise {A} e.

Definition bind {A B} (m : result A) (f : A -> result B) : result B :=
  match m with
  | Ok a => f a
  | Raise e => Raise e
  end.

#[global] Instance result_bind : MBind result := fun A B f m => bind m f.
#[global] Instance result_ret : MRet result := fun A a => Ok a.

Definition returned {A} (m : result A) : Prop :=
  match m with Ok _ => True | Raise _ => False end.

(** [m] returns, with a value that passes [check] *)
Definition returns_with {A} (m : result A) (check : A -> bool) : bool :=
  match m with
  | Ok a => check a
  | Raise _ => false
  end.

(** [bool(v)] *)
Definition truthy (v : pyval) : bool :=
  match v with
  | VNone => false
  | VNaN => true
  | VBool b => b
  | VInt z => negb (z =? 0)
  | VFloat q => negb (Qeq_bool q 0)
  | VStr s => negb (String.eqb s "")
  end.

(** [pd.notnull(v)] and [pd.isnull(v)] on a scalar *)
Definition notnull (v : pyval) : bool :=
  match v with
  | VNone | VNaN => false
  | _ => true
  end.

Definition isnull (v : pyval) : bool := negb (notnull v).

(** the numeric value of a number ([True] is 1, [False] is 0) *)
Definition as_number (v : pyval) : option Q :=
  match v with
  | VBool b => Some (inject_Z (if b then 1 else 0))
  | VInt z => Some (inject_Z z)
  | VFloat q => Some q
  | _ => None
  end.

(** [a == b] *)
Definition py_eq (a b : pyval) : bool :=
  match a, b with
  | VNone, VNone => true
  | VStr s, VStr t => String.eqb s t
  | VNaN, _ | _, VNaN => false
  | _, _ =>
      match as_number a, as_number b with
      | Some x, Some y => Qeq_bool x y
      | _, _ => false
      end
  end.

(** [v is True] *)
Definition is_True (v : pyval) : bool :=
  match v with VBool true => true | _ => false end.

(** *** Characters *)

Definition code (c : ascii) : N := N_of_ascii c.

Definition in_range (lo hi : N) (c : ascii) : bool :=
  ((lo <=? code c) && (code c <=? hi))%N.

(** [str.isspace] on one character: tab..carriage return, the four
    separators 28..31, space, and in Latin-1 NEL and the no-break space *)
Definition is_space (c : ascii) : bool :=
  in_range 9 13 c || in_range 28 32 c
  || (code c =? 133)%N || (code c =? 160)%N.

Definition is_digit (c : ascii) : bool := in_range 48 57 c.

Definition is_upper (c : ascii) : bool := in_range 65 90 c.
Definition is_lower (c : ascii) : bool := in_range 97 122 c.
Definition is_letter (c : ascii) : bool := is_upper c || is_lower c.

(** [str.isalnum] or underscore: what [\w] matches in a [str] pattern *)
Definition is_word (c : ascii) : bool :=
  is_letter c || is_digit c || (code c =? 95)%N
  || (code c =? 170)%N || (code c =? 178)%N || (code c =? 179)%N
  || (code c =? 181)%N || (code c =? 185)%N || (code c =? 186)%N
  || in_range 188 190 c || in_range 192 214 c
  || in_range 216 246 c || in_range 248 255 c.

(** [str.lower] on one character *)
Definition lower_char (c : ascii) : ascii :=
  if is_upper c || in_range 192 214 c || in_range 216 222 c
  then ascii_of_N (code c + 32)
  else c.

Fixpoint lower (s : string) : string :=
  match s with
  | EmptyString => EmptyString
  | String c s' => String (lower_char c) (lower s')
  end.

(** *** Strings *)

Fixpoint rev_string (acc s : string) : string :=
  match s with
  | EmptyString => acc
  | String c s' => rev_string (String c acc) s'
  end.

Fixpoint lstrip_by (sp : ascii -> bool) (s : string) : string :=
  match s with
  | String c s' => if sp c then lstrip_by sp s' else s
  | EmptyString => EmptyString
  end.

Definition strip_by (sp : ascii -> bool) (s : string) : string :=
  rev_string "" (lstrip_by sp (rev_string "" (lstrip_by sp s))).

(** [s.strip()] *)
Definition strip (s : string) : string := strip_by is_space s.

Fixpoint is_prefix (p s : string) : bool :=
  match p, s with
  | EmptyString, _ => true
  | String a p', String b s' => Ascii.eqb a b && is_prefix p' s'
  | String _ _, EmptyString => false
  end.

(** [s.find(p)]: the least index at which [p] occurs in [s] *)
Fixpoint find_from (i : nat) (p s : string) : option nat :=
  if is_prefix p s then Some i
  else match s with
       | EmptyString => None
       | String _ s' => find_from (S i) p s'
       end.

Definition find (p s : string) : option nat := find_from 0 p s.

(** [p in s] *)
Definition contains (p s : string) : bool :=
  match find p s with Some _ => true | None => false end.

(** [s.index(p)] *)
Definition index (p s : string) : result nat :=
  match find p s with Some i => Ok i | None => Raise ValueError end.

(** [s[n:]] *)
Fixpoint slice_from (n : nat) (s : string) : string :=
  match n, s with
  | O, _ => s
  | S n', String _ s' => slice_from n' s'
  | S _, EmptyString => EmptyString
  end.

(** [s[:n]] *)
Fixpoint slice_to (n : nat) (s : string) : string :=
  match n, s with
  | S n', String c s' => String c (slice_to n' s')
  | _, _ => EmptyString
  end.

(** [s.split()]: the maximal runs of non-space characters.  [cur] holds
    the run being read, reversed. *)
Fixpoint split_ws_go (cur : string) (s : string) : list string :=
  match s with
  | EmptyString =>
      match cur with
      | EmptyString => []
      | _ => [rev_string "" cur]
      end
  | String c s' =>
      if is_space c then
        match cur with
        | EmptyString => split_ws_go "" s'
        | _ => rev_string "" cur :: split_ws_go "" s'
        end
      else split_ws_go (String c cur) s'
  end.

Definition split_ws (s : string) : list string := split_ws_go "" s.

(** [s.split(sep)] for a one-character separator *)
Fixpoint split_on_go (sep : ascii) (cur : string) (s : string) : list string :=
  match s with
  | EmptyString => [rev_string "" cur]
  | String c s' =>
      if Ascii.eqb c sep then rev_string "" cur :: split_on_go sep "" s'
      else split_on_go sep (String c cur) s'
  end.

Definition split_on (sep : ascii) (s : string) : list string :=
  split_on_go sep "" s.

(** *** [int(...)] *)

Definition digit_val (c : ascii) : Z := Z.of_N (code c) - 48.

(** digits with single underscores between them; [prev] tells whether the
    previous character was a digit *)
Fixpoint int_digits (acc : Z) (prev : bool) (s : string) : option Z :=
  match s with
  | EmptyString => if prev then Some acc else None
  | String c s' =>
      if is_digit c then int_digits (acc * 10 + digit_val c) true s'
      else if (code c =? 95)%N && prev then int_digits acc false s'
      else None
  end.

Definition int_unsigned (s : string) : option Z :=
  match s with
  | String c _ => if is_digit c then int_digits 0 false s else None
  | EmptyString => None
  end.

(** the white space [int] skips around the number: unlike [str.strip], not
    the separators 28..31 *)
Definition is_int_space (c : ascii) : bool :=
  in_range 9 13 c || (code c =? 32)%N || (code c =? 133)%N || (code c =? 160)%N.

(** [int(s)] on a string: surrounding white space, an optional sign and
    decimal digits; [None] stands for [ValueError] *)
Definition int_of_string (s : string) : option Z :=
  match strip_by is_int_space s with
  | String "-" t => option_map Z.opp (int_unsigned t)
  | String "+" t => int_unsigned t
  | t => int_unsigned t
  end.

(** [int(float)] truncates toward zero *)
Definition trunc (q : Q) : Z := Z.quot (Qnum q) (Zpos (Qden q)).

Definition py_int (v : pyval) : result Z :=
  match v with
  | VNone => Raise TypeError
  | VNaN => Raise ValueError
  | VBool b => Ok (if b then 1 else 0)
  | VInt z => Ok z
  | VFloat q => Ok (trunc q)
  | VStr s =>
      match int_of_string s with
      | Some z => Ok z
      | None => Raise ValueError
      end
  end.

End Py.

(** ** The fragment of Python's [re] the patterns of [pbp.py] use

    A backtracking matcher in continuation-passing style: alternatives are
    tried left to right, greedy repetitions longest first, lazy ones
    shortest first, and the first complete match is the answer, as in
    [re].  Every pattern of the source is compiled with [re.IGNORECASE], so
    literals and [[a-z]] are matched without regard to case.  Repetitions
    in the source only ever range over a single character class. *)

Module Re.
Import Py.

Inductive cls : Type :=
| Any            (* .        any character but a newline *)
| NonSpace       (* \S *)
| Space          (* \s *)
| Digit          (* \d *)
| Word           (* \w *)
| Alpha          (* [a-z]    with IGNORECASE *)
| NotParenComma  (* [^\(,] *)
| DashDotDigit.  (* [\-\.\d] *)

Definition cls_match (c : cls) (a : ascii) : bool :=
  match c with
  | Any => negb (code a =? 10)%N
  | NonSpace => negb (is_space a)
  | Space => is_space a
  | Digit => is_digit a
  | Word => is_word a
  | Alpha => is_letter a
  | NotParenComma => negb ((code a =? 40)%N || (code a =? 44)%N)
  | DashDotDigit => (code a =? 45)%N || (code a =? 46)%N || is_digit a
  end.

Inductive regex : Type :=
| Eps
| Bol                                   (* ^ *)
| Eol                                   (* $ *)
| Lit (l : string)
| Rep (greedy : bool) (c : cls) (lo : nat) (hi : option nat)
| Seq (r1 r2 : regex)
| Alt (r1 r2 : regex)
| Opt (r : regex)                       (* (?:r)? *)
| Grp (name : string) (r : regex).      (* (?P<name>r) *)

Abbreviation caps := (gmap string string).

(** a literal at the head of [s], ignoring case; the rest of [s] *)
Fixpoint eat (l s : string) : option string :=
  match l, s with
  | EmptyString, _ => Some s
  | String a l', String b s' =>
      if Ascii.eqb (lower_char a) (lower_char b) then eat l' s' else None
  | String _ _, EmptyString => None
  end.

Definition can_more (hi : option nat) : bool :=
  match hi with Some O => false | _ => true end.

Definition less (hi : option nat) : option nat := option_map Nat.pred hi.

Section Matcher.
Context {A : Type}.

Fixpoint rep_greedy (c : cls) (lo : nat) (hi : option nat)
    (s : string) (pos : nat) (k : string -> nat -> option A) : option A :=
  let stop := if Nat.eqb lo 0 then k s pos else None in
  match s with
  | String a s' =>
      if can_more hi && cls_match c a then
        match rep_greedy c (Nat.pred lo) (less hi) s' (S pos) k with
        | Some x => Some x
        | None => stop
        end
      else stop
  | EmptyString => stop
  end.

Fixpoint rep_lazy (c : cls) (lo : nat) (hi : option nat)
    (s : string) (pos : nat) (k : string -> nat -> option A) : option A :=
  match (if Nat.eqb lo 0 then k s pos else None) with
  | Some x => Some x
  | None =>
      match s with
      | String a s' =>
          if can_more hi && cls_match c a
          then rep_lazy c (Nat.pred lo) (less hi) s' (S pos) k
          else None
      | EmptyString => None
      end
  end.

Fixpoint rmatch (r : regex) (s : string) (pos : nat) (cs : caps)
    (k : string -> nat -> caps -> option A) : option A :=
  match r with
  | Eps => k s pos cs
  | Bol => if Nat.eqb pos 0 then k s pos cs else None
  | Eol =>
      (* the end of the string, or just before a newline that ends it *)
      match s with
      | EmptyString => k s pos cs
      | String c EmptyString => if (code c =? 10)%N then k s pos cs else None
      | _ => None
      end
  | Lit l =>
      match eat l s with
      | Some s' => k s' (pos + String.length l)%nat cs
      | None => None
      end
  | Rep g c lo hi =>
      (if g then rep_greedy else rep_lazy) c lo hi s pos
        (fun s' p' => k s' p' cs)
  | Seq r1 r2 =>
      rmatch r1 s pos cs (fun s' p' cs' => rmatch r2 s' p' cs' k)
  | Alt r1 r2 =>
      match rmatch r1 s pos cs k with
      | Some x => Some x
      | None => rmatch r2 s pos cs k
      end
  | Opt r1 =>
      match rmatch r1 s pos cs k with
      | Some x => Some x
      | None => k s pos cs
      end
  | Grp name r1 =>
      rmatch r1 s pos cs
        (fun s' p' cs' => k s' p' (<[name := slice_to (p' - pos) s]> cs'))
  end.

End Matcher.

(** [pattern.search(s)]: the first start position with a match *)
Fixpoint search_from (r : regex) (s : string) (pos : nat) : option caps :=
  match rmatch r s pos ∅ (fun _ _ cs => Some cs) with
  | Some cs => Some cs
  | None =>
      match s with
      | String _ s' => search_from r s' (S pos)
      | EmptyString => None
      end
  end.

Definition search (r : regex) (s : string) : option caps := search_from r s 0.

(** [pattern.match(s)]: a match at the start of [s] *)
Definition match_start (r : regex) (s : string) : option caps :=
  rmatch r s 0 ∅ (fun _ _ cs => Some cs).

(** [pattern.fullmatch(s)] *)
Definition fullmatch (r : regex) (s : string) : option caps :=
  rmatch r s 0 ∅
    (fun s' _ cs => match s' with EmptyString => Some cs | _ => None end).

Fixpoint group_names (r : regex) : list string :=
  match r with
  | Eps | Bol | Eol | Lit _ | Rep _ _ _ _ => []
  | Seq r1 r2 | Alt r1 r2 => group_names r1 ++ group_names r2
  | Opt r1 => group_names r1
  | Grp name r1 => name :: group_names r1
  end.

(** [match.group(name)] *)
Definition group (cs : caps) (name : string) : pyval :=
  match cs !! name with
  | Some v => VStr v
  | None => VNone
  end.

(** [match.groupdict()]: every named group of the pattern, [None] for a
    group that took no part in the match *)
Definition groupdict (r : regex) (cs : caps) : list (string * pyval) :=
  map (fun name => (name, group cs name)) (group_names r).

(** *** What a match consumes

    [matches r s n cs cs']: the pattern [r] can match the first [n]
    characters of [s], turning the captures [cs] into [cs'].  Anchors and
    the order of preference are left out, so the relation holds of every
    match the matcher finds (and of some it does not). *)

Fixpoint all_in (c : cls) (s : string) : Prop :=
  match s with
  | EmptyString => True
  | String a s' => cls_match c a = true /\ all_in c s'
  end.

Definition within (n : nat) (hi : option nat) : Prop :=
  match hi with
  | Some h => (n <= h)%nat
  | None => True
  end.

Fixpoint matches (r : regex) (s : string) (n : nat) (cs cs' : caps) : Prop :=
  match r with
  | Eps | Bol | Eol => n = 0%nat /\ cs' = cs
  | Lit l => n = String.length l /\ eat l s = Some (slice_from n s) /\ cs' = cs
  | Rep _ c lo hi =>
      (lo <= n <= String.length s)%nat /\ within n hi /\
      all_in c (slice_to n s) /\ cs' = cs
  | Seq r1 r2 =>
      exists n1 n2 cs1,
        n = (n1 + n2)%nat /\ matches r1 s n1 cs cs1 /\
        matches r2 (slice_from n1 s) n2 cs1 cs'
  | Alt r1 r2 => matches r1 s n cs cs' \/ matches r2 s n cs cs'
  | Opt r1 => matches r1 s n cs cs' \/ (n = 0%nat /\ cs' = cs)
  | Grp name r1 =>
      exists cs1, matches r1 s n cs cs1 /\ cs' = <[name := slice_to n s]> cs1
  end.

(** *** Notation for patterns *)

Definition seqs (rs : list regex) : regex := foldr Seq Eps rs.

Fixpoint alts (rs : list regex) : regex :=
  match rs with
  | [] => Eps
  | [r] => r
  | r :: rs' => Alt r (alts rs')
  end.

Definition star (c : cls) : regex := Rep true c 0 None.
Definition plus (c : cls) : regex := Rep true c 1 None.
Definition star_lazy (c : cls) : regex := Rep false c 0 None.
Definition plus_lazy (c : cls) : regex := Rep false c 1 None.
Definition times (c : cls) (lo hi : nat) : regex := Rep true c lo (Some hi).

End Re.

(** ** [nfl_stats/pbp.py] *)

Module Pbp.
Import Py Re.

Definition RUSH_OPTS : list (string * string) :=
  [("left end", "LE"); ("left tackle", "LT"); ("left guard", "LG");
   ("up the middle", "M"); ("middle", "M");
   ("right end", "RE"); ("right tackle", "RT"); ("right guard", "RG")].

Definition PASS_OPTS : list (string * string) :=
  [("short left", "SL"); ("short middle", "SM"); ("short right", "SR");
   ("deep left", "DL"); ("deep middle", "DM"); ("deep right", "DR")].

(** [r'|'.join(opts.keys())] *)
Definition keysRE (opts : list (string * string)) : regex :=
  alts (map (fun kv => Lit (fst kv)) opts).

(** *** The patterns built in [parse_play_details] *)

(** [\S{6,8}\d{2}] *)
Definition playerRE : regex := Seq (times NonSpace 6 8) (times Digit 2 2).

(** [\-?\d+] and [\-?\d*] *)
Definition intRE1 : regex := Seq (Opt (Lit "-")) (plus Digit).
Definition intRE0 : regex := Seq (Opt (Lit "-")) (star Digit).

(** [ yards?] *)
Definition yardsRE : regex := Seq (Lit " yard") (Opt (Lit "s")).

Definition challengeRE : regex :=
  seqs [plus Any; Lit ". "; Grp "challenger" (plus_lazy Any);
        Lit " challenged"; star_lazy Any; Lit " the play was ";
        Grp "callUpheld" (Alt (Lit "upheld") (Lit "overturned")); Lit "."].

Definition rusherRE : regex := Grp "rusher" playerRE.

(** the final value of the variable [rushOptRE] *)
Definition rushOptRE : regex :=
  Opt (Seq (Lit " ") (Grp "rushDir" (keysRE RUSH_OPTS))).

Definition rushYardsRE : regex :=
  Alt (Seq (Grp "rushYds" intRE1) yardsRE) (Lit "no gain").

Definition tackleRE : regex :=
  Opt (seqs [Lit " (tackle by "; Grp "tackler1" playerRE;
             Opt (Seq (Lit " and ") (Grp "tackler2" playerRE)); Lit ")"]).

Definition fumbleRE : regex :=
  Opt (seqs
    [Opt (Lit "."); Opt (Lit " "); Grp "fumbler" playerRE; Lit " fumbles";
     Opt (seqs [Lit " (forced by "; Grp "fumbForcer" playerRE; Lit ")"]);
     Opt (seqs [star Any; Lit ", recovered by ";
                Grp "fumbRecoverer" playerRE; Lit " at "]);
     Opt (Lit ", ball out of bounds at ");
     Opt (seqs [Opt (Grp "fumbRecFieldSide" (plus Alpha)); Opt (Lit "-");
                Grp "fumbRecYdLine" intRE1]);
     Opt (seqs [Lit " and returned for "; Grp "fumbRetYds" intRE0;
                Lit " yards"])]).

Definition tdSafetyRE : regex :=
  Opt (Alt (Grp "isTD" (Lit ", touchdown")) (Grp "isSafety" (Lit ", safety"))).

Definition penaltyRE : regex :=
  Opt (seqs
    [star_lazy Any; Lit ". Penalty on "; Grp "penOn" (Alt playerRE Eps);
     Lit ": "; Grp "penalty" (plus NotParenComma);
     Alt (seqs [Lit " ("; Grp "penDeclined" (Lit "Declined"); Lit ")"])
         (seqs [Lit ", "; Grp "penYds" (star Digit); yardsRE]);
     Opt (Lit " (no play)")]).

Definition rushRE : regex :=
  seqs [rusherRE; rushOptRE;
        Opt (seqs [Lit " for "; rushYardsRE; tackleRE; fumbleRE; tdSafetyRE;
                   penaltyRE])].

Definition passerRE : regex := Grp "passer" playerRE.

Definition sackRE : regex :=
  seqs [Lit "sacked ";
        Opt (seqs [Lit "by "; Grp "sacker1" playerRE;
                   Opt (Seq (Lit " and ") (Grp "sacker2" playerRE)); Lit " "]);
        Lit "for "; Grp "sackYds" intRE1; yardsRE].

Definition completeRE : regex :=
  Seq (Lit "pass ") (Grp "isComplete" (Seq (Opt (Lit "in")) (Lit "complete"))).

(** the final value of the variable [passOptRE] *)
Definition passOptRE : regex :=
  Opt (Seq (Lit " ") (Grp "passLoc" (keysRE PASS_OPTS))).

Definition targetedRE : regex :=
  Opt (seqs [Lit " "; Opt (Alt (Lit "to ") (Lit "intended for "));
             Grp "target" playerRE]).

Definition passYardsRE : regex :=
  Seq (Lit " for ") (Alt (Seq (Grp "passYds" intRE1) yardsRE) (Lit "no gain")).

Definition intRE : regex :=
  Opt (seqs
    [Lit " is intercepted by "; Grp "interceptor" playerRE; Lit " at ";
     Opt (seqs [Opt (Grp "intFieldSide" (star Alpha)); Opt (Lit "-");
                Grp "intYdLine" intRE0]);
     Opt (seqs [Lit " and returned for "; Grp "intRetYds" intRE1; yardsRE;
                Opt (Lit ".")])]).

Definition throwRE : regex :=
  seqs [completeRE; passOptRE; targetedRE;
        Opt (Seq (Alt passYardsRE intRE) tackleRE)].

Definition passRE : regex :=
  seqs [passerRE; Lit " "; Alt sackRE throwRE;
        Opt (seqs [fumbleRE; tdSafetyRE; penaltyRE])].

Definition koKickerRE : regex := Grp "koKicker" playerRE.

Definition koYardsRE : regex :=
  seqs [Lit " kicks "; Alt (Lit "off") (Grp "isOnside" (Lit "onside"));
        Lit " "; Alt (Seq (Grp "koYds" (plus Digit)) yardsRE) (Lit "no gain")].

(** the kickoff's [nextRE]: five optional clauses in a row *)
Definition koNextRE : regex :=
  seqs
    [Opt (seqs [Lit ", "; Alt (Lit "returned") (Lit "recovered"); Lit " by ";
                Grp "koReturner" playerRE;
                Opt (Seq (Lit " for ")
                       (Alt (Seq (Grp "koRetYds" intRE1) yardsRE)
                            (Lit "no gain")))]);
     Opt (seqs [Grp "isMuffedCatch" (Lit ", muffed catch by ");
                Grp "muffedBy" playerRE; Lit ",";
                Opt (Seq (Lit " recovered by ") (Grp "muffRecoverer" playerRE));
                Opt (Seq (Lit " and returned for ")
                       (Alt (Seq (Grp "muffRetYds" intRE1) (Lit " yards"))
                            (Lit "no gain")))]);
     Opt (Seq (Lit ", recovered by ") (Grp "onsideRecoverer" playerRE));
     Opt (Grp "oob" (Lit ", out of bounds"));
     Opt (Grp "isTouchback" (Lit ", touchback"))].

Definition kickoffRE : regex :=
  seqs [koKickerRE; koYardsRE; koNextRE; tackleRE; fumbleRE; tdSafetyRE;
        penaltyRE].

Definition timeoutRE : regex :=
  seqs [Lit "Timeout #"; Grp "timeoutNum" (times Digit 1 1); Lit " by ";
        Grp "timeoutTeam" (plus Any)].

Definition fgKickerRE : regex := Grp "fgKicker" playerRE.

Definition fgBaseRE : regex :=
  seqs [Lit " "; Grp "fgDist" (plus Digit); Lit " yard field goal ";
        Grp "fgGood" (Alt (Lit "good") (Lit "no good"))].

Definition fgBlockRE : regex :=
  seqs
    [Opt (seqs [Lit ", "; Grp "isBlocked" (Lit "blocked"); Lit " by ";
                Grp "fgBlocker" playerRE]);
     Opt (Seq (Lit ", recovered by ") (Grp "fgBlockRecoverer" playerRE));
     Opt (Seq (Lit " and returned for ")
            (Alt (Seq (Grp "fgBlockRetYds" intRE1) yardsRE) (Lit "no gain")))].

Definition fgRE : regex :=
  seqs [fgKickerRE; fgBaseRE; fgBlockRE; tdSafetyRE; penaltyRE].

Definition punterRE : regex := Seq (star_lazy Any) (Grp "punter" playerRE).

Definition puntBlockRE : regex :=
  seqs
    [Lit " punts, "; Grp "isBlocked" (Lit "blocked"); Lit " by ";
     Grp "puntBlocker" playerRE;
     Opt (seqs [Lit ", recovered by "; Grp "puntBlockRecoverer" playerRE;
                Opt (Seq (Lit " and returned ")
                       (Alt (Seq (Grp "puntBlockRetYds" intRE1) (Lit " yards"))
                            (Lit "no gain")))])].

Definition puntYdsRE : regex :=
  seqs [Lit " punts "; Grp "puntYds" (plus Digit); yardsRE].

(** the punt's [nextRE]: at most one of five clauses *)
Definition puntNextRE : regex :=
  Opt (alts
    [seqs [Lit ", "; Grp "isFairCatch" (Lit "fair catch"); Lit " by ";
           Grp "fairCatcher" playerRE];
     Seq (Lit ", ") (Grp "oob" (Lit "out of bounds"));
     seqs [Grp "isMuffedCatch" (Lit ", muffed catch by ");
           Grp "muffedBy" playerRE; Lit ", recovered by ";
           Grp "muffRecoverer" playerRE; Lit " and returned for ";
           Alt (Seq (Grp "muffRetYds" (plus Digit)) (Lit " yards"))
               (Lit "no gain")];
     seqs [Lit ", returned by "; Grp "puntReturner" playerRE; Lit " for ";
           Alt (Seq (Grp "puntRetYds" intRE1) yardsRE) (Lit "no gain")];
     Grp "isTouchback" (Lit ", touchback")]).

Definition puntRE : regex :=
  seqs [punterRE; Alt puntBlockRE puntYdsRE; puntNextRE; tackleRE; fumbleRE;
        tdSafetyRE; penaltyRE].

Definition kneelRE : regex :=
  seqs [Grp "kneelQB" playerRE; Lit " kneels for ";
        Alt (Seq (Grp "kneelYds" intRE1) yardsRE) (Lit "no gain")].

Definition spikeRE : regex :=
  Seq (Grp "spikeQB" playerRE) (Lit " spiked the ball").

Definition extraPointRE : regex :=
  seqs [Opt (Seq (Grp "xpKicker" playerRE) (Lit " kicks")); Opt (Lit " ");
        Lit "extra point "; Grp "xpGood" (Alt (Lit "good") (Lit "no good"))].

Definition twoPointRE : regex :=
  seqs [Lit "Two Point Attempt: "; Grp "twoPoint" (star_lazy Any);
        Opt (Lit ","); plus Space; Lit "conversion"; plus Space;
        Grp "twoPointSuccess" (Alt (Lit "succeeds") (Lit "fails"))].

Definition psPenaltyRE : regex :=
  seqs [Bol; Lit "Penalty on "; Grp "penOn" (Alt playerRE (times Word 3 3));
        Lit ": "; Grp "penalty" (plus NotParenComma);
        alts [seqs [Lit " ("; Grp "penDeclined" (Lit "Declined"); Lit ")"];
              seqs [Lit ", "; Grp "penYds" (star Digit); yardsRE];
              Seq (star_lazy Any) (Lit " (no play)")]].

(** *** [parse_play_details] *)

(** [struct.update(pairs)] *)
Definition update (st : gmap string pyval) (kvs : list (string * pyval))
  : gmap string pyval :=
  foldl (fun d kv => <[fst kv := snd kv]> d) st kvs.

(** the challenge block: the dictionary so far and the description the
    matchers are tried on *)
Definition handle_challenge (details : string)
  : result (gmap string pyval * string) :=
  match search challengeRE details with
  | Some m =>
      let st := update (<["isChallenge" := VBool true]> ∅)
                       (groupdict challengeRE m) in
      if contains "overturned" details then
        overturned_idx ← index "overturned." details;
        let new_start := (overturned_idx + String.length "overturned.")%nat in
        Ok (st, strip (slice_from new_start details))
      else Ok (st, details)
  | None => Ok (<["isChallenge" := VBool false]> ∅, details)
  end.

(** one [if match:] branch of the cascade, for every category but the
    two-point conversion *)
Definition capture (flag : string) (r : regex) (m : caps)
    (st : gmap string pyval) : gmap string pyval :=
  update (<[flag := VBool true]> st) (groupdict r m).

Fixpoint parse_fuel (fuel : nat) (details : pyval)
  : result (option (gmap string pyval)) :=
  match fuel with
  | O => Ok None
  | S fuel' =>
  match details with
  | VStr details0 =>
    '(st0, details) ← handle_challenge details0;
    let st := <["isLateral" := VBool (contains "lateral" details)]> st0 in
    match search kickoffRE details with
    | Some m => Ok (Some (capture "isKickoff" kickoffRE m st))
    | None =>
    match search timeoutRE details with
    | Some m => Ok (Some (capture "isTimeout" timeoutRE m st))
    | None =>
    match search fgRE details with
    | Some m => Ok (Some (capture "isFieldGoal" fgRE m st))
    | None =>
    match search puntRE details with
    | Some m => Ok (Some (capture "isPunt" puntRE m st))
    | None =>
    match search kneelRE details with
    | Some m => Ok (Some (capture "isKneel" kneelRE m st))
    | None =>
    match search spikeRE details with
    | Some m => Ok (Some (capture "isSpike" spikeRE m st))
    | None =>
    match search extraPointRE details with
    | Some m => Ok (Some (capture "isXP" extraPointRE m st))
    | None =>
    match search twoPointRE details with
    | Some m =>
        let st := <["isTwoPoint" := VBool true]> st in
        let st := <["twoPointSuccess" := group m "twoPointSuccess"]> st in
        realPlay ← parse_fuel fuel' (group m "twoPoint");
        match realPlay with
        | Some rp => Ok (Some (rp ∪ st))
        | None => Ok (Some st)
        end
    | None =>
    match search passRE details with
    | Some m => Ok (Some (capture "isPass" passRE m st))
    | None =>
    match search psPenaltyRE details with
    | Some m => Ok (Some (capture "isPresnapPenalty" psPenaltyRE m st))
    | None =>
    match search rushRE details with
    | Some m => Ok (Some (capture "isRun" rushRE m st))
    | None => Ok None
    end end end end end end end end end end end
  | _ => Ok None
  end
  end.

(** the recursion is on a proper part of the description, so its length
    bounds the depth *)
Definition fuel_for (details : pyval) : nat :=
  match details with
  | VStr s => S (String.length s)
  | _ => 1%nat
  end.

Definition parse_play_details (details : pyval)
  : result (option (gmap string pyval)) :=
  parse_fuel (fuel_for details) details.

(** *** [_loc_to_features] *)

(** [struct.get(k)] and [struct[k]] *)
Definition get (st : gmap string pyval) (k : string) : pyval :=
  default VNone (st !! k).

Definition getitem (st : gmap string pyval) (k : string) : result pyval :=
  match st !! k with
  | Some v => Ok v
  | None => Raise KeyError
  end.

(** the value returned is a list (after [split]) or a pair; both are
    unpacked by the caller *)
Definition _loc_to_features (loc : pyval) : result (list pyval) :=
  if truthy loc then
    match loc with
    | VStr loc0 =>
        let loc := strip loc0 in
        if contains " " loc then
          match split_ws loc with
          | r0 :: r1 :: rest =>
              n ← py_int (VStr r1);
              Ok (VStr (lower r0) :: VInt n :: map VStr rest)
          | _ => Raise IndexError
          end
        else
          n ← py_int (VStr loc);
          Ok [VNaN; VInt n]
    | VFloat _ | VNaN => Ok [VNaN; VInt 50]
    | _ => Raise UnboundLocalError
    end
  else Ok [VNaN; VNaN].

(** [a, b = r] *)
Definition unpack2 (r : list pyval) : result (pyval * pyval) :=
  match r with
  | [a; b] => Ok (a, b)
  | _ => Raise ValueError
  end.

(** *** [_clean_features] *)

(** [p in v]: only a string can be searched *)
Definition py_in (p : string) (v : pyval) : result bool :=
  match v with
  | VStr s => Ok (contains p s)
  | _ => Raise TypeError
  end.

(** [opts.get(v, np.nan)] *)
Fixpoint assoc (k : string) (kvs : list (string * string)) : option string :=
  match kvs with
  | [] => None
  | (k', v) :: rest => if String.eqb k k' then Some v else assoc k rest
  end.

Definition opts_get (opts : list (string * string)) (v : pyval) : pyval :=
  match v with
  | VStr s => match assoc s opts with Some c => VStr c | None => VNaN end
  | _ => VNaN
  end.

(** [a - b] *)
Definition py_sub (a b : pyval) : result pyval :=
  match a, b with
  | VInt x, VInt y => Ok (VInt (x - y))
  | VNaN, (VNaN | VBool _ | VInt _ | VFloat _)
  | (VBool _ | VInt _ | VFloat _), VNaN => Ok VNaN
  | _, _ =>
      match as_number a, as_number b with
      | Some x, Some y =>
          match a, b with
          | VFloat _, _ | _, VFloat _ => Ok (VFloat (x - y))
          | _, _ => Ok (VInt (Qnum x - Qnum y))
          end
      | _, _ => Raise TypeError
      end
  end.

(** [qtr * 900 - mins * 60 - secs] for integers [mins] and [secs] *)
Definition secs_elapsed (qtr : pyval) (mins secs : Z) : result pyval :=
  match qtr with
  | VInt q => Ok (VInt (q * 900 - mins * 60 - secs))
  | VBool b => Ok (VInt ((if b then 1 else 0) * 900 - mins * 60 - secs))
  | VFloat q =>
      Ok (VFloat (q * inject_Z 900 - inject_Z (mins * 60) - inject_Z secs))
  | VNaN => Ok VNaN
  | VNone | VStr _ => Raise TypeError
  end.

Definition ptypes : list string :=
  ["isKickoff"; "isTimeout"; "isFieldGoal"; "isPunt"; "isKneel";
   "isSpike"; "isXP"; "isTwoPoint"; "isPresnapPenalty"; "isPass";
   "isRun"; "penalty"].

Definition bool_vars : list string :=
  ["fgGood"; "isBlocked"; "isChallenge"; "isComplete"; "isFairCatch";
   "isFieldGoal"; "isKickoff"; "isKneel"; "isLateral"; "isNoPlay";
   "isPass"; "isPresnapPenalty"; "isPunt"; "isRun"; "isSack"; "isSafety";
   "isSpike"; "isTD"; "isTimeout"; "isTouchback"; "isTwoPoint"; "isXP";
   "isMuffedCatch"; "oob"; "penDeclined"; "twoPointSuccess"; "xpGood"].

Definition int_vars : list string :=
  ["down"; "fgBlockRetYds"; "fgDist"; "fumbRecYdLine"; "fumbRetYds";
   "intRetYds"; "intYdLine"; "koRetYds"; "koYds"; "muffRetYds";
   "pbp_score_aw"; "pbp_score_hm"; "passYds"; "penYds"; "puntBlockRetYds";
   "puntRetYds"; "puntYds"; "quarter"; "rushYds"; "sackYds"; "timeoutNum";
   "ydLine"; "yds_to_go"].

Definition float_vars : list string :=
  ["exp_pts_after"; "exp_pts_before"; "home_wp"].

Definition string_vars : list string :=
  ["challenger"; "detail"; "fairCatcher"; "fgBlockRecoverer";
   "fgBlocker"; "fgKicker"; "fieldSide"; "fumbForcer";
   "fumbRecFieldSide"; "fumbRecoverer"; "fumbler"; "intFieldSide";
   "interceptor"; "kneelQB"; "koKicker"; "koReturner"; "muffRecoverer";
   "muffedBy"; "passLoc"; "passer"; "penOn"; "penalty";
   "puntBlockRecoverer"; "puntBlocker"; "puntReturner"; "punter";
   "qtr_time_remain"; "rushDir"; "rusher"; "sacker1"; "sacker2";
   "spikeQB"; "tackler1"; "tackler2"; "target"; "timeoutTeam";
   "xpKicker"].

(** The dictionary [struct] is threaded through [_clean_features], and a
    statement may raise: a state and error monad. *)
Definition M (A : Type) : Type :=
  gmap string pyval -> result (A * gmap string pyval).

#[global] Instance M_ret : MRet M := fun A a st => Ok (a, st).

#[global] Instance M_bind : MBind M := fun A B f m st =>
  match m st with
  | Ok (a, st') => f a st'
  | Raise e => Raise e
  end.

(** [struct.get(k)] *)
Definition struct_get (k : string) : M pyval := fun st => Ok (get st k, st).

(** [struct[k]] *)
Definition struct_item (k : string) : M pyval := fun st =>
  match st !! k with
  | Some v => Ok (v, st)
  | None => Raise KeyError
  end.

(** [k in struct] *)
Definition struct_has (k : string) : M bool := fun st =>
  Ok (bool_decide (is_Some (st !! k)), st).

(** [struct[k] = v] *)
Definition struct_set (k : string) (v : pyval) : M unit := fun st =>
  Ok (tt, <[k := v]> st).

Definition lift {A} (r : result A) : M A := fun st =>
  match r with
  | Ok a => Ok (a, st)
  | Raise e => Raise e
  end.

Notation "k ::= v" := (struct_set k v) (at level 55, no associativity).

(** [for var in vars: body] *)
Fixpoint for_vars (vars : list string) (body : string -> M unit) : M unit :=
  match vars with
  | [] => mret tt
  | var :: vars' => body var;; for_vars vars' body
  end.

(** statements one after the other *)
Fixpoint block (stmts : list (M unit)) : M unit :=
  match stmts with
  | [] => mret tt
  | stmt :: stmts' => stmt;; block stmts'
  end.

(** [struct[k] = struct.get(k) == s] *)
Definition set_is (k s : string) : M unit :=
  v ← struct_get k; k ::= VBool (py_eq v (VStr s)).

(** [struct[k] = pd.notnull(struct.get(k'))] *)
Definition set_notnull (k k' : string) : M unit :=
  v ← struct_get k'; k ::= VBool (notnull v).

Section Normalizer.

(** [float(s)] on a string is left to the caller of the model: [None] for
    [ValueError], [Some None] for a not-a-number, [Some (Some q)] for a
    finite value. *)
Variable float_of_string : string -> option (option Q).

Definition py_float (v : pyval) : result pyval :=
  match v with
  | VNone => Raise TypeError
  | VNaN => Ok VNaN
  | VBool b => Ok (VFloat (inject_Z (if b then 1 else 0)))
  | VInt z => Ok (VFloat (inject_Z z))
  | VFloat q => Ok (VFloat q)
  | VStr s =>
      match float_of_string s with
      | Some (Some q) => Ok (VFloat q)
      | Some None => Ok VNaN
      | None => Raise ValueError
      end
  end.

(** the bodies of the four loops of the source *)
Definition clean_ptype (pt : string) : M unit :=
  v ← struct_get pt; pt ::= (if notnull v then v else VBool false).

Definition clean_bool (var : string) : M unit :=
  v ← struct_get var; var ::= VBool (is_True v).

Definition clean_int (var : string) : M unit :=
  v ← struct_get var;
  var ::= match py_int v with
          | Ok z => VInt z
          | Raise _ => VNaN
          end.

Definition clean_float (var : string) : M unit :=
  v ← struct_get var;
  var ::= match py_float v with
          | Ok x => x
          | Raise _ => VNaN
          end.

Definition clean_string (var : string) : M unit :=
  present ← struct_has var;
  missing ←
    (if (present : bool) then
       v ← struct_item var; mret (isnull v || String.eqb var "")
     else mret true);
  if (missing : bool) then var ::= VNaN else mret tt.

(** "First" and "Second" of the source: play type flags and one-off
    clean-ups, a statement per line *)
Definition clean_values : list (M unit) :=
  [ for_vars ptypes clean_ptype;
    set_is "callUpheld" "upheld";
    set_is "fgGood" "good";
    set_is "isBlocked" "blocked";
    set_is "isComplete" "complete";
    set_is "isFairCatch" "fair catch";
    set_notnull "isMuffedCatch" "isMuffedCatch";
    (d ← struct_get "detail";
     isNoPlay ←
       (if truthy d then
          detail ← struct_item "detail";
          a ← lift (py_in " (no play)" detail);
          if (a : bool) then
            b ← lift (py_in "penalty enforced in end zone" detail);
            mret (negb b)
          else mret false
        else mret false);
     "isNoPlay" ::= VBool isNoPlay);
    set_is "isOnside" "onside";
    set_notnull "isSack" "sackYds";
    (v ← struct_get "isSafety";
     isSafety ←
       (if py_eq v (VStr ", safety") then mret (VBool true)
        else
          d ← struct_get "detail";
          if truthy d then
            detail ← struct_item "detail";
            b ← lift (py_in "enforced in end zone, safety" detail);
            mret (VBool b)
          else mret d);
     "isSafety" ::= isSafety);
    set_is "isTD" ", touchdown";
    set_is "isTouchback" ", touchback";
    set_notnull "oob" "oob";
    (v ← struct_get "passLoc"; "passLoc" ::= opts_get PASS_OPTS v);
    (isPass ← struct_item "isPass";
     if truthy isPass then
       pyds ← struct_item "passYds";
       "passYds" ::= (if notnull pyds then pyds else VInt 0)
     else mret tt);
    (pen ← struct_get "penalty";
     if truthy pen then
       pen ← struct_item "penalty";
       match pen with
       | VStr pen => "penalty" ::= VStr (strip pen)
       | _ => lift (Raise AttributeError)
       end
     else "penalty" ::= VNone);
    set_is "penDeclined" "Declined";
    (quarter ← struct_item "quarter";
     if py_eq quarter (VStr "OT") then "quarter" ::= VInt 5 else mret tt);
    (v ← struct_get "rushDir"; "rushDir" ::= opts_get RUSH_OPTS v);
    (isRun ← struct_item "isRun";
     if truthy isRun then
       ryds ← struct_item "rushYds";
       "rushYds" ::= (if notnull ryds then ryds else VInt 0)
     else mret tt);
    set_is "twoPointSuccess" "succeeds";
    set_is "xpGood" "good" ].

(** "Third": types *)
Definition clean_types : list (M unit) :=
  [ for_vars bool_vars clean_bool;
    for_vars int_vars clean_int;
    for_vars float_vars clean_float;
    for_vars string_vars clean_string ].

(** "Fourth", first part: [fieldSide] and [ydLine] *)
Definition add_location : M unit :=
  isXP ← struct_item "isXP";
  if truthy isXP then
    "fieldSide" ::= VNaN;; "ydLine" ::= VNaN
  else
    location ← struct_get "location";
    r ← lift (_loc_to_features location);
    '(fieldSide, ydline) ← lift (unpack2 r);
    "fieldSide" ::= fieldSide;; "ydLine" ::= ydline.

(** [[int(t) for t in ts]] *)
Fixpoint ints_of (ts : list string) : result (list Z) :=
  match ts with
  | [] => Ok []
  | t :: ts' =>
      n ← py_int (VStr t);
      ns ← ints_of ts';
      Ok (n :: ns)
  end.

(** [[int(t) for t in v.split(':')]]; only a string has [split] *)
Definition clock_ints (v : pyval) : result (list Z) :=
  match v with
  | VStr clock => ints_of (split_on ":" clock)
  | _ => Raise AttributeError
  end.

(** [mins, secs = ts] *)
Definition unpack_clock (ts : list Z) : result (Z * Z) :=
  match ts with
  | [mins; secs] => Ok (mins, secs)
  | _ => Raise ValueError
  end.

(** "Fourth", second part: [secsElapsed] *)
Definition add_secsElapsed : M unit :=
  clock ← struct_get "qtr_time_remain";
  if notnull clock then
    qtr ← struct_item "quarter";
    clock ← struct_item "qtr_time_remain";
    ts ← lift (clock_ints clock);
    '(mins, secs) ← lift (unpack_clock ts);
    v ← lift (secs_elapsed qtr mins secs);
    "secsElapsed" ::= v
  else mret tt.

(** "Fourth", the rest: turnovers, penalty flag and expected points *)
Definition add_flags : list (M unit) :=
  [ set_notnull "isInt" "interceptor";
    set_notnull "isFumble" "fumbler";
    set_notnull "isPenalty" "penalty";
    (after ← struct_item "exp_pts_after";
     before ← struct_item "exp_pts_before";
     v ← lift (py_sub after before);
     "team_epa" ::= v);
    (before ← struct_item "exp_pts_before";
     after ← struct_item "exp_pts_after";
     v ← lift (py_sub before after);
     "opp_epa" ::= v) ].

Definition clean_features_body : M unit :=
  block [ block clean_values; block clean_types; add_location;
          add_secsElapsed; block add_flags ].

Definition _clean_features (struct : gmap string pyval)
  : result (gmap string pyval) :=
  match clean_features_body struct with
  | Ok (_, st) => Ok st
  | Raise e => Raise e
  end.

(** *** [expand_details] *)

(** A [DataFrame] is the list of its rows, each a dictionary from column
    name to cell, under the default index 0, 1, ...; a frame without rows
    has no columns.  [frame] gives every row every column, a cell nobody
    filled being [np.nan], as [pd.DataFrame(list_of_dicts)] does. *)
Definition columns (rows : list (gmap string pyval)) : gset string :=
  ⋃ (dom <$> rows).

Definition frame (rows : list (gmap string pyval))
  : list (gmap string pyval) :=
  let blank := gset_to_gmap VNaN (columns rows) in
  (fun row => row ∪ blank) <$> rows.

Definition clock (row : gmap string pyval) : pyval :=
  get row "qtr_time_remain".

Definition set_clock (v : pyval) (row : gmap string pyval)
  : gmap string pyval :=
  <["qtr_time_remain" := v]> row.

(** [df.loc[0, 'qtr_time_remain'] = '15:00'] *)
Definition seed_clock (df : list (gmap string pyval))
  : list (gmap string pyval) :=
  match df with
  | row :: rest => set_clock (VStr "15:00") row :: rest
  | [] => []
  end.

(** [df.qtr_time_remain.fillna(method='bfill', inplace=True)]: a missing
    cell takes the next valid value below it, if there is one *)
Fixpoint bfill_clock (df : list (gmap string pyval))
  : list (gmap string pyval) :=
  match df with
  | [] => []
  | row :: rest =>
      let rest' := bfill_clock rest in
      (if isnull (clock row) then
         match rest' with
         | next :: _ =>
             if notnull (clock next) then set_clock (clock next) row else row
         | [] => row
         end
       else row) :: rest'
  end.

(** [df.qtr_time_remain.fillna(pd.Series(np.where(df.quarter == 4, '0:00',
    '15:00')), inplace=True)] *)
Definition default_clock (row : gmap string pyval) : gmap string pyval :=
  if isnull (clock row) then
    set_clock
      (VStr (if py_eq (get row "quarter") (VInt 4) then "0:00" else "15:00"))
      row
  else row.

Definition fill_clock (df : list (gmap string pyval))
  : list (gmap string pyval) :=
  default_clock <$> bfill_clock (seed_clock df).

Definition has_column (col : string) (df : list (gmap string pyval)) : bool :=
  bool_decide (col ∈ columns df).

Definition expand_details (df : list (gmap string pyval))
    (detail_col : string) : result (list (gmap string pyval)) :=
  let df := frame df in
  if negb (has_column detail_col df) then Raise KeyError else
  let df := (fun row => <["detail" := get row detail_col]> row) <$> df in
  dicts ← mapM (fun row => parse_play_details (get row "detail")) df;
  (* clean up unmatched details *)
  let cols : gset string := ⋃ (dom <$> omap id dicts) in
  let blank_entry : gmap string pyval := gset_to_gmap VNaN cols in
  let new_dicts := default blank_entry <$> dicts in
  let details := (fun d => d ∪ blank_entry) <$> new_dicts in
  let df := zip_with (fun row d => d ∪ row) df details in
  (* add is_error column *)
  let df :=
    zip_with
      (fun row d =>
         <["is_error" := VBool (if d is None then true else false)]> row)
      df dicts in
  (* fill in some NaN's necessary for _clean_features *)
  if negb (has_column "quarter" df) then Raise AttributeError else
  let df := fill_clock df in
  mapM _clean_features df.

End Normalizer.

End Pbp.

(** ** [nfl_stats/boxscores.py]: the spread and the win-probability part
    of [BoxScore.pbp] *)

Module Boxscores.
Import Py Re.
Local Open Scope nat_scope.

(** *** [BoxScore.line] *)

(** [(.+?) ([\-\.\d]+)$]; the two groups are named by their numbers *)
Definition lineRE : regex :=
  seqs [Grp "1" (plus_lazy Any); Lit " "; Grp "2" (plus DashDotDigit); Eol].

(** [gi_table] is the dictionary of [get_game_info]; [home_name] stands for
    [teams.team_names(year)[self.home()]] and [float_of_string] for
    [float] on a string ([None] when it raises [ValueError]). *)
Definition line (float_of_string : string -> option (option Q))
    (gi_table : gmap string string) (home_name : string)
  : result (option (option Q)) :=
  match gi_table !! "vegas_line" with
  | None => Ok None
  | Some line_text =>
      match match_start lineRE line_text with
      | Some m =>
          match m !! "1", m !! "2" with
          | Some favorite, Some line =>
              match float_of_string line with
              | Some line =>
                  (* give in terms of the home team *)
                  Ok (Some (if negb (String.eqb favorite home_name)
                            then Qopp <$> line else line))
              | None => Raise ValueError
              end
          | _, _ => Raise TypeError
          end
      | None => Ok (Some (Some 0%Q))
      end
  end.

(** *** [BoxScore.winner] *)

Definition winner (home away : string) (hm_score aw_score : Z)
  : option string :=
  if (aw_score <? hm_score)%Z then Some home
  else if (hm_score <? aw_score)%Z then Some away
  else None.

(** *** [BoxScore.pbp] *)

(** The columns of the play-by-play frame that the win-probability code
    reads or writes.  A missing number ([np.nan]) is [None]. *)
Record play : Type := Play {
  secsElapsed : option Z;
  isTimeout : bool;
  home_wp : option Q;
  home_wpa : option Q;
  pbp_score_hm : option Z;
  pbp_score_aw : option Z
}.

Definition set_wp (v : option Q) (p : play) : play :=
  Play (secsElapsed p) (isTimeout p) v (home_wpa p)
       (pbp_score_hm p) (pbp_score_aw p).

Definition set_wpa (v : option Q) (p : play) : play :=
  Play (secsElapsed p) (isTimeout p) (home_wp p) v
       (pbp_score_hm p) (pbp_score_aw p).

Definition set_hm (v : option Z) (p : play) : play :=
  Play (secsElapsed p) (isTimeout p) (home_wp p) (home_wpa p)
       v (pbp_score_aw p).

Definition set_aw (v : option Z) (p : play) : play :=
  Play (secsElapsed p) (isTimeout p) (home_wp p) (home_wpa p)
       (pbp_score_hm p) v.

(** [a - b] on floats that may be missing *)
Definition osub (a b : option Q) : option Q :=
  match a, b with
  | Some x, Some y => Some (x - y)%Q
  | _, _ => None
  end.

(** [Series.diff()] *)
Fixpoint diff_from (prev : option Q) (l : list (option Q))
  : list (option Q) :=
  match l with
  | [] => []
  | x :: l' => osub x prev :: diff_from x l'
  end.

Definition diff (l : list (option Q)) : list (option Q) := diff_from None l.

(** [Series.shift(1)] *)
Definition shift {A} (l : list (option A)) : list (option A) :=
  match l with
  | [] => []
  | _ :: _ => None :: removelast l
  end.

(** [Series.fillna(method='ffill')] *)
Fixpoint ffill_from {A} (prev : option A) (l : list (option A))
  : list (option A) :=
  match l with
  | [] => []
  | x :: l' =>
      let y := match x with Some _ => x | None => prev end in
      y :: ffill_from y l'
  end.

Definition ffill {A} (l : list (option A)) : list (option A) :=
  ffill_from None l.

(** [df[col] = values] *)
Definition assign {A} (set : A -> play -> play) (values : list A)
    (df : list play) : list play :=
  zip_with set values df.

(** [df[mask].index] under the default index *)
Fixpoint index_where_from (i : nat) (mask : play -> bool) (df : list play)
  : list nat :=
  match df with
  | [] => []
  | p :: df' =>
      if mask p then i :: index_where_from (S i) mask df'
      else index_where_from (S i) mask df'
  end.

Definition index_where (mask : play -> bool) (df : list play) : list nat :=
  index_where_from 0 mask df.

(** reading [df.loc[i, col]] *)
Definition loc {A} (col : play -> A) (i : nat) (df : list play) : result A :=
  match df !! i with
  | Some p => Ok (col p)
  | None => Raise KeyError
  end.

(** a [for] loop whose body may raise *)
Fixpoint for_each {S I} (body : S -> I -> result S) (s : S) (items : list I)
  : result S :=
  match items with
  | [] => Ok s
  | i :: items' => s' ← body s i; for_each body s' items'
  end.

(** [50. if pd.isnull(winner) else (winner == self.home()) * 100.] *)
Definition finalWP_of (winner : option string) (home : string) : Q :=
  match winner with
  | None => 50%Q
  | Some w => if String.eqb w home then 100%Q else 0%Q
  end.

Section Assembly.

(** [sportsref.nfl.winProb.initialWinProb] is not part of the repository:
    a parameter.  [sportsref.nfl.pbp._add_team_columns] and
    [_add_team_features], not part of it either, are taken to leave the
    columns below alone. *)
Variable initialWinProb : option (option Q) -> result (option Q).

Definition is_first_play (p : play) : bool :=
  match secsElapsed p with
  | Some s => (s =? 0)%Z
  | None => false
  end.

(** the body of [for i in firstPlaysOfGame] *)
Definition fix_first_play (line : option (option Q)) (df : list play)
    (i : nat) : result (list play) :=
  initwp ← initialWinProb line;
  let df := alter (set_wp initwp) i df in
  next ← loc home_wp (i + 1) df;
  Ok (alter (set_wpa (osub next initwp)) i df).

(** the body of [for to in timeouts] *)
Definition fix_timeout (finalWP : Q) (df : list play) (to : nat)
  : result (list play) :=
  let df := alter (set_wpa (Some 0%Q)) to df in
  wpa ←
    (if bool_decide (to + 2 < length df) then
       a ← loc home_wp (to + 2) df;
       b ← loc home_wp (to + 1) df;
       Ok (osub a b)
     else
       b ← loc home_wp (to + 1) df;
       Ok (osub (Some finalWP) b));
  Ok (alter (set_wpa wpa) (to + 1) df).

Definition pbp (line : option (option Q)) (winner : option string)
    (home : string) (df : list play) : result (list play) :=
  match df with
  | [] => Raise AttributeError
  | _ :: _ =>
  (* add WPA column (requires diff, can't be done row-wise) *)
  let df := assign set_wpa (diff (home_wp <$> df)) df in
  (* lag score columns, fill in 0-0 to start *)
  let df := assign set_wp (shift (home_wp <$> df)) df in
  let df := assign set_hm (shift (pbp_score_hm <$> df)) df in
  let df := assign set_aw (shift (pbp_score_aw <$> df)) df in
  let df := alter (fun p => set_aw (Some 0%Z) (set_hm (Some 0%Z) p)) 0 df in
  (* fill in WP NaN's *)
  let df := assign set_wp (ffill (home_wp <$> df)) df in
  (* fix first play border after diffing/shifting for WP and WPA *)
  let firstPlaysOfGame := index_where is_first_play df in
  df ← for_each (fix_first_play line) df firstPlaysOfGame;
  (* fix last play border after diffing/shifting for WP and WPA *)
  let lastPlayIdx := Nat.pred (length df) in
  lastPlayWP ← loc home_wp lastPlayIdx df;
  (* if a tie, final WP is 50%; otherwise, determined by winner *)
  let finalWP := finalWP_of winner home in
  let df := alter (set_wpa (osub (Some finalWP) lastPlayWP)) lastPlayIdx df in
  (* fix WPA for timeouts and plays after timeouts *)
  let timeouts := index_where isTimeout df in
  for_each (fix_timeout finalWP) df timeouts
  end.

End Assembly.

(** [initial + sum(wpa)], missing as soon as one term is *)
Definition oadd (a b : option Q) : option Q :=
  match a, b with
  | Some x, Some y => Some (x + y)%Q
  | _, _ => None
  end.

Definition total_wpa (initial : option Q) (df : list play) : option Q :=
  foldl oadd initial (home_wpa <$> df).

End Boxscores.

(** ** Definitions used to state the properties *)

Module Props.
Import Py Re Pbp Boxscores.

(** *** The classifier as the specification words it: a fixed list of
    category matchers tried in order, the first match wins *)

Inductive category : Type :=
| Kickoff | Timeout | FieldGoal | Punt | Kneel | Spike | ExtraPoint
| TwoPointConversion | Pass | PresnapPenalty | Run.

Definition priority : list category :=
  [Kickoff; Timeout; FieldGoal; Punt; Kneel; Spike; ExtraPoint;
   TwoPointConversion; Pass; PresnapPenalty; Run].

Definition matcher (c : category) : regex :=
  match c with
  | Kickoff => kickoffRE
  | Timeout => timeoutRE
  | FieldGoal => fgRE
  | Punt => puntRE
  | Kneel => kneelRE
  | Spike => spikeRE
  | ExtraPoint => extraPointRE
  | TwoPointConversion => twoPointRE
  | Pass => passRE
  | PresnapPenalty => psPenaltyRE
  | Run => rushRE
  end.

Definition flag (c : category) : string :=
  match c with
  | Kickoff => "isKickoff"
  | Timeout => "isTimeout"
  | FieldGoal => "isFieldGoal"
  | Punt => "isPunt"
  | Kneel => "isKneel"
  | Spike => "isSpike"
  | ExtraPoint => "isXP"
  | TwoPointConversion => "isTwoPoint"
  | Pass => "isPass"
  | PresnapPenalty => "isPresnapPenalty"
  | Run => "isRun"
  end.

Fixpoint first_match (cs : list category) (details : string)
  : option (category * caps) :=
  match cs with
  | [] => None
  | c :: cs' =>
      match search (matcher c) details with
      | Some m => Some (c, m)
      | None => first_match cs' details
      end
  end.

(** the structured capture of category [c] for the match [m]: the flag of
    the category and the named groups, on top of the challenge and lateral
    fields [st]; a two-point conversion instead carries its success word
    and the fields of the play inside it *)
Definition structured_capture (c : category) (m : caps)
    (st : gmap string pyval) : result (gmap string pyval) :=
  match c with
  | TwoPointConversion =>
      let st := <["twoPointSuccess" := group m "twoPointSuccess"]>
                  (<["isTwoPoint" := VBool true]> st) in
      realPlay ← parse_play_details (group m "twoPoint");
      Ok (match realPlay with Some rp => rp ∪ st | None => st end)
  | _ => Ok (capture (flag c) (matcher c) m st)
  end.

(** *** Clock gap-filling as the specification words it *)

Definition seed_if_missing (df : list (gmap string pyval))
  : list (gmap string pyval) :=
  match df with
  | row :: rest =>
      (if isnull (clock row) then set_clock (VStr "15:00") row else row)
      :: rest
  | [] => []
  end.

Fixpoint ffill_clock_from (prev : pyval) (df : list (gmap string pyval))
  : list (gmap string pyval) :=
  match df with
  | [] => []
  | row :: rest =>
      if isnull (clock row) && notnull prev
      then set_clock prev row :: ffill_clock_from prev rest
      else row :: ffill_clock_from (clock row) rest
  end.

Fixpoint default_last (df : list (gmap string pyval))
  : list (gmap string pyval) :=
  match df with
  | [] => []
  | [row] => [default_clock row]
  | row :: rest => row :: default_last rest
  end.

Definition fill_clock_spec (df : list (gmap string pyval))
  : list (gmap string pyval) :=
  default_last (ffill_clock_from VNaN (seed_if_missing df)).

(** the first clock that is not missing *)
Fixpoint first_valid_clock (df : list (gmap string pyval)) : option pyval :=
  match df with
  | [] => None
  | row :: rest =>
      if notnull (clock row) then Some (clock row) else first_valid_clock rest
  end.

(** *** Statements of [_clean_features] and the keys of [struct] *)

(** [m] leaves the entry [k] of the dictionary as it was *)
Definition preserves {A} (k : string) (m : M A) : Prop :=
  forall st a st', m st = Ok (a, st') -> st' !! k = st !! k.

(** [m] neither reads nor writes the entry [k] *)
Definition ignores {A} (k : string) (m : M A) : Prop :=
  forall st v,
    m (<[k := v]> st) =
    match m st with
    | Ok (a, st') => Ok (a, <[k := v]> st')
    | Raise e => Raise e
    end.

(** the body of a loop over variable names that rewrites the entry of its
    variable from that entry alone, by [h], and cannot raise *)
Definition pointwise (h : string -> option pyval -> pyval)
    (body : string -> M unit) : Prop :=
  forall var st,
    exists st', body var st = Ok (tt, st') /\
      st' !! var = Some (h var (st !! var)) /\
      forall k, k <> var -> st' !! k = st !! k.

(** what the four loops of "Third" make of the entry [o] of [k] *)
Definition bool_of (o : option pyval) : pyval :=
  VBool (is_True (default VNone o)).

Definition int_of (o : option pyval) : pyval :=
  match py_int (default VNone o) with
  | Ok z => VInt z
  | Raise _ => VNaN
  end.

Definition float_of (float_of_string : string -> option (option Q))
    (o : option pyval) : pyval :=
  match py_float float_of_string (default VNone o) with
  | Ok x => x
  | Raise _ => VNaN
  end.

Definition string_of (o : option pyval) : pyval :=
  match o with
  | Some v => if isnull v then VNaN else v
  | None => VNaN
  end.

Definition through (vars : list string) (h : option pyval -> pyval)
    (k : string) (o : option pyval) : option pyval :=
  if bool_decide (k ∈ vars) then Some (h o) else o.

Definition typed (float_of_string : string -> option (option Q))
    (k : string) (o : option pyval) : option pyval :=
  through string_vars string_of k
    (through float_vars (float_of float_of_string) k
       (through int_vars int_of k
          (through bool_vars bool_of k o))).

(** *** The assembled series *)

(** the win probability a play ends with: the one the next play starts
    with, and the terminal value for the last play *)
Definition wp_after (finalWP : Q) (df : list play) (i : nat) : option Q :=
  match df !! (S i) with
  | Some p => home_wp p
  | None => Some finalWP
  end.

End Props.

(** ** Further definitions used to state properties *)

Module Sem.
Import Py Re Pbp Boxscores Props.

(** [o is not None] *)
Definition found {A} (o : option A) : bool :=
  match o with
  | Some _ => true
  | None => false
  end.

(** the bodies of the groups called [name] in [r] *)
Fixpoint bodies (name : string) (r : regex) : list regex :=
  match r with
  | Seq r1 r2 | Alt r1 r2 => bodies name r1 ++ bodies name r2
  | Opt r1 => bodies name r1
  | Grp name' r1 =>
      (if String.eqb name' name then [r1] else []) ++ bodies name r1
  | _ => []
  end.

(** every string a match of [r] consumes satisfies [P] *)
Definition consumes_only (P : string -> Prop) (r : regex) : Prop :=
  forall s n cs cs', matches r s n cs cs' -> P (slice_to n s).





(** [m = re.search(r, s)], then the text of the group [name] when [m] is a
    match the group took part in *)
Definition captured (r : regex) (s name : string) : option string :=
  m ← search r s; m !! name.

(** what the first loop of [_clean_features] makes of a play type flag *)
Definition ptype_of (o : option pyval) : pyval :=
  if notnull (default VNone o) then default VNone o else VBool false.

(** the two statements of [_clean_features] that give the yards of a pass
    and of a run their default *)
Definition yards_stmt (flag yds : string) : M unit :=
  isF ← struct_item flag;
  if truthy isF then
    y ← struct_item yds;
    yds ::= (if notnull y then y else VInt 0)
  else mret tt.

(** a dictionary that tells whether the play was challenged, whether it
    had a lateral, and which category it is of *)
Definition classified (st : gmap string pyval) : Prop :=
  (exists b, st !! "isChallenge" = Some (VBool b)) /\
  (exists b, st !! "isLateral" = Some (VBool b)) /\
  exists c, st !! flag c = Some (VBool true).


(** a player identifier: six to eight characters that are not white space,
    then two digits *)
Definition player_id (s : string) : Prop :=
  exists a b,
    s = (a ++ b)%string /\ (6 <= String.length a <= 8)%nat /\
    all_in NonSpace a /\ String.length b = 2%nat /\ all_in Digit b.

End Sem.

(** * Properties *)

Import Py Re Pbp Boxscores Props.

Lemma returns_with_spec {A} (m : result A) (check : A -> bool) :
  returns_with m check = true -> exists a, m = Ok a /\ check a = true.
Proof. destruct m as [a|e]; [eauto | discriminate]. Qed.

Lemma none_by_check {A} (o : option A) : Sem.found o = false -> o = None.
Proof. destruct o; [discriminate | reflexivity]. Qed.

Lemma some_by_check {A} (o : option A) :
  Sem.found o = true -> exists a, o = Some a.
Proof. destruct o; [eauto | discriminate]. Qed.

Lemma raises_by_check {A} (m : result A) :
  match m with Raise ValueError => true | _ => false end = true ->
  m = Raise ValueError.
Proof.
  destruct m as [a|e]; [discriminate|].
  destruct e; first [reflexivity | discriminate].
Qed.

(** ** Running the statements of [_clean_features] *)

Lemma bind_run {A B} (m : M A) (f : A -> M B) st :
  (m ≫= f) st =
  match m st with
  | Ok (a, st1) => f a st1
  | Raise e => Raise e
  end.
Proof. reflexivity. Qed.

Lemma bind_ok {A B} (m : M A) (f : A -> M B) st b st' :
  (m ≫= f) st = Ok (b, st') ->
  exists a st1, m st = Ok (a, st1) /\ f a st1 = Ok (b, st').
Proof.
  rewrite bind_run. destruct (m st) as [[a st1]|e]; [eauto | discriminate].
Qed.

Lemma block_cons stmt stmts st :
  block (stmt :: stmts) st =
  match stmt st with
  | Ok (_, st1) => block stmts st1
  | Raise e => Raise e
  end.
Proof. reflexivity. Qed.

Lemma block_app l1 l2 st :
  block (l1 ++ l2) st =
  match block l1 st with
  | Ok (_, st1) => block l2 st1
  | Raise e => Raise e
  end.
Proof.
  revert st. induction l1 as [|s1 l1 IH]; intros st; [reflexivity|].
  rewrite <- app_comm_cons, !block_cons.
  destruct (s1 st) as [[[] st1]|e]; [apply IH | reflexivity].
Qed.

(** the statement at position [n] of a block that returns *)
Lemma block_at n stmts st st' :
  block stmts st = Ok (tt, st') ->
  forall stmt, stmts !! n = Some stmt ->
  exists sa sb,
    block (take n stmts) st = Ok (tt, sa) /\ stmt sa = Ok (tt, sb) /\
    block (drop (S n) stmts) sb = Ok (tt, st').
Proof.
  intros Hrun stmt Hn.
  rewrite <- (take_drop_middle stmts n stmt Hn), block_app in Hrun.
  destruct (block (take n stmts) st) as [[[] sa]|e]; [|discriminate].
  rewrite block_cons in Hrun.
  destruct (stmt sa) as [[[] sb]|e] eqn:Hs; [|discriminate].
  eauto.
Qed.

(** *** Entries a statement leaves alone *)

Lemma preserves_ret {A} k (a : A) : preserves k (mret a : M A).
Proof. intros st a' st' H. unfold mret, M_ret in H. by simplify_eq. Qed.

Lemma preserves_bind {A B} k (m : M A) (f : A -> M B) :
  preserves k m -> (forall a, preserves k (f a)) -> preserves k (m ≫= f).
Proof.
  intros Hm Hf st b st' H. apply bind_ok in H as (a & st1 & H1 & H2).
  rewrite (Hf a _ _ _ H2). eapply Hm, H1.
Qed.

Lemma preserves_get k k' : preserves k (struct_get k').
Proof. intros st a st' H. unfold struct_get, struct_has in H. by simplify_eq. Qed.

Lemma preserves_item k k' : preserves k (struct_item k').
Proof.
  intros st a st' H. unfold struct_item in H.
  destruct (st !! k'); by simplify_eq.
Qed.

Lemma preserves_has k k' : preserves k (struct_has k').
Proof. intros st a st' H. unfold struct_get, struct_has in H. by simplify_eq. Qed.

Lemma preserves_lift {A} k (r : result A) : preserves k (lift r).
Proof.
  intros st a st' H. unfold lift in H.
  destruct r; by simplify_eq.
Qed.

Lemma preserves_set k k' v : k' <> k -> preserves k (k' ::= v).
Proof.
  intros Hne st a st' H. unfold struct_set in H. simplify_eq.
  by rewrite lookup_insert_ne.
Qed.

Lemma preserves_for_vars k vars body :
  (forall var, var ∈ vars -> preserves k (body var)) ->
  preserves k (for_vars vars body).
Proof.
  induction vars as [|var vars IH]; intros Hb; simpl.
  - apply preserves_ret.
  - apply preserves_bind.
    + apply Hb. left.
    + intros _. apply IH. intros v Hv. apply Hb. by right.
Qed.

Lemma preserves_block k stmts :
  Forall (preserves k) stmts -> preserves k (block stmts).
Proof.
  induction 1 as [|stmt stmts Hs _ IH]; simpl.
  - apply preserves_ret.
  - apply preserves_bind; [exact Hs | intros _; exact IH].
Qed.

(** *** Entries a statement neither reads nor writes *)

Lemma get_insert_ne (st : gmap string pyval) k k' v :
  k <> k' -> get (<[k := v]> st) k' = get st k'.
Proof. intros. unfold get. by rewrite lookup_insert_ne. Qed.

Lemma ignores_ret {A} k (a : A) : ignores k (mret a : M A).
Proof. intros st v. reflexivity. Qed.

Lemma ignores_bind {A B} k (m : M A) (f : A -> M B) :
  ignores k m -> (forall a, ignores k (f a)) -> ignores k (m ≫= f).
Proof.
  intros Hm Hf st v. rewrite !bind_run, Hm.
  destruct (m st) as [[a st1]|e]; [apply Hf | reflexivity].
Qed.

Lemma ignores_get k k' : k <> k' -> ignores k (struct_get k').
Proof.
  intros Hne st v. unfold struct_get. by rewrite get_insert_ne.
Qed.

Lemma ignores_item k k' : k <> k' -> ignores k (struct_item k').
Proof.
  intros Hne st v. unfold struct_item. rewrite lookup_insert_ne by done.
  by destruct (st !! k').
Qed.

Lemma ignores_has k k' : k <> k' -> ignores k (struct_has k').
Proof.
  intros Hne st v. unfold struct_has. by rewrite lookup_insert_ne.
Qed.

Lemma ignores_lift {A} k (r : result A) : ignores k (lift r).
Proof. intros st v. unfold lift. by destruct r. Qed.

Lemma ignores_set k k' v' : k <> k' -> ignores k (k' ::= v').
Proof.
  intros Hne st v. unfold struct_set. by rewrite insert_insert_ne.
Qed.

Lemma ignores_for_vars k vars body :
  (forall var, var ∈ vars -> ignores k (body var)) ->
  ignores k (for_vars vars body).
Proof.
  induction vars as [|var vars IH]; intros Hb; simpl.
  - apply ignores_ret.
  - apply ignores_bind.
    + apply Hb. left.
    + intros _. apply IH. intros v Hv. apply Hb. by right.
Qed.

Lemma ignores_block k stmts :
  Forall (ignores k) stmts -> ignores k (block stmts).
Proof.
  induction 1 as [|stmt stmts Hs _ IH]; simpl.
  - apply ignores_ret.
  - apply ignores_bind; [exact Hs | intros _; exact IH].
Qed.

(** *** Loops that rewrite one entry per variable *)

Lemma for_vars_pointwise h body vars :
  pointwise h body -> NoDup vars ->
  forall st, exists st',
    for_vars vars body st = Ok (tt, st') /\
    forall k, st' !! k = through vars (h k) k (st !! k).
Proof.
  intros Hb. induction 1 as [|var vars Hnotin Hnd IH]; intros st.
  - exists st. split; [reflexivity|]. intros k. reflexivity.
  - destruct (Hb var st) as (st1 & Hrun & Hvar & Hother).
    destruct (IH st1) as (st' & Hrest & Hlook).
    exists st'. split.
    + simpl. rewrite bind_run, Hrun. exact Hrest.
    + intros k. rewrite Hlook. unfold through.
      destruct (decide (k = var)) as [->|Hne].
      * rewrite (bool_decide_eq_false_2 _ Hnotin).
        rewrite bool_decide_eq_true_2 by left. exact Hvar.
      * rewrite (Hother k Hne).
        destruct (decide (k ∈ vars)) as [Hin|Hout].
        -- rewrite !bool_decide_eq_true_2; [done | by right | done].
        -- rewrite !bool_decide_eq_false_2; [done | | done].
           intros [->|?]%elem_of_cons; contradiction.
Qed.

Lemma clean_bool_pointwise : pointwise (fun _ => bool_of) clean_bool.
Proof.
  intros var st. eexists. split; [reflexivity|]. split.
  - by rewrite lookup_insert_eq.
  - intros k Hne. by rewrite lookup_insert_ne.
Qed.

Lemma clean_int_pointwise : pointwise (fun _ => int_of) clean_int.
Proof.
  intros var st. eexists. split; [reflexivity|]. split.
  - by rewrite lookup_insert_eq.
  - intros k Hne. by rewrite lookup_insert_ne.
Qed.

Lemma bool_vars_nodup : NoDup bool_vars.
Proof. apply (bool_decide_unpack (NoDup bool_vars)). by vm_compute. Qed.

Lemma int_vars_nodup : NoDup int_vars.
Proof. apply (bool_decide_unpack (NoDup int_vars)). by vm_compute. Qed.

Lemma float_vars_nodup : NoDup float_vars.
Proof. apply (bool_decide_unpack (NoDup float_vars)). by vm_compute. Qed.

Lemma string_vars_nodup : NoDup string_vars.
Proof. apply (bool_decide_unpack (NoDup string_vars)). by vm_compute. Qed.

Lemma string_vars_named : "" ∉ string_vars.
Proof. apply (bool_decide_unpack ("" ∉ string_vars)). by vm_compute. Qed.

Section Floats.
Variable float_of_string : string -> option (option Q).

Lemma clean_float_pointwise :
  pointwise (fun _ => float_of float_of_string) (clean_float float_of_string).
Proof.
  intros var st. eexists. split; [reflexivity|]. split.
  - by rewrite lookup_insert_eq.
  - intros k Hne. by rewrite lookup_insert_ne.
Qed.

Lemma clean_string_pointwise :
  forall vars, "" ∉ vars ->
  forall st, NoDup vars -> exists st',
    for_vars vars clean_string st = Ok (tt, st') /\
    forall k, st' !! k = through vars string_of k (st !! k).
Proof.
  intros vars Hne st Hnd. revert st.
  induction Hnd as [|var vars Hnotin Hnd IH]; intros st.
  - exists st. split; [reflexivity|]. intros k. reflexivity.
  - assert (Hv : var <> "") by (intros ->; apply Hne; left).
    assert (Hne' : "" ∉ vars) by (intros ?; apply Hne; by right).
    assert (Hstep : exists st1, clean_string var st = Ok (tt, st1) /\
              st1 !! var = Some (string_of (st !! var)) /\
              forall k, k <> var -> st1 !! k = st !! k).
    { unfold clean_string, struct_has, struct_item.
      rewrite !bind_run. unfold string_of.
      destruct (st !! var) as [v|] eqn:Hl; simpl.
      - rewrite bind_run, Hl. simpl.
        replace (String.eqb var "") with false
          by (symmetry; by apply String.eqb_neq).
        rewrite orb_false_r. destruct (isnull v).
        + eexists. split; [reflexivity|]. split.
          * by rewrite lookup_insert_eq.
          * intros k Hk. by rewrite lookup_insert_ne.
        + exists st. split; [reflexivity|]. split; [exact Hl | done].
      - eexists. split; [reflexivity|]. split.
        * by rewrite lookup_insert_eq.
        * intros k Hk. by rewrite lookup_insert_ne. }
    destruct Hstep as (st1 & Hrun & Hvar & Hother).
    destruct (IH Hne' st1) as (st' & Hrest & Hlook).
    exists st'. split.
    + simpl. rewrite bind_run, Hrun. exact Hrest.
    + intros k. rewrite Hlook. unfold through.
      destruct (decide (k = var)) as [->|Hk].
      * rewrite (bool_decide_eq_false_2 _ Hnotin).
        rewrite bool_decide_eq_true_2 by left. exact Hvar.
      * rewrite (Hother k Hk).
        destruct (decide (k ∈ vars)) as [Hin|Hout].
        -- rewrite !bool_decide_eq_true_2; [done | by right | done].
        -- rewrite !bool_decide_eq_false_2; [done | | done].
           intros [->|?]%elem_of_cons; contradiction.
Qed.

(** "Third" cannot raise, and what it makes of every entry *)
Lemma clean_types_run st :
  exists st',
    block (clean_types float_of_string) st = Ok (tt, st') /\
    forall k, st' !! k = typed float_of_string k (st !! k).
Proof.
  destruct (for_vars_pointwise _ _ bool_vars clean_bool_pointwise
              bool_vars_nodup st) as (s1 & H1 & L1).
  destruct (for_vars_pointwise _ _ int_vars clean_int_pointwise
              int_vars_nodup s1) as (s2 & H2 & L2).
  destruct (for_vars_pointwise _ _ float_vars clean_float_pointwise
              float_vars_nodup s2) as (s3 & H3 & L3).
  destruct (clean_string_pointwise string_vars string_vars_named s3
              string_vars_nodup) as (s4 & H4 & L4).
  exists s4. split.
  - unfold clean_types.
    rewrite block_cons, H1; cbv beta iota.
    rewrite block_cons, H2; cbv beta iota.
    rewrite block_cons, H3; cbv beta iota.
    rewrite block_cons, H4. reflexivity.
  - intros k. rewrite L4, L3, L2, L1. reflexivity.
Qed.

End Floats.

(** *** Deciding the two properties by the shape of a statement *)

Ltac solve_neq :=
  solve [ discriminate | intros ?; discriminate | done | congruence ].

Ltac solve_notin :=
  match goal with
  | |- ?P => apply (bool_decide_unpack P); by vm_compute
  end.

Lemma preserves_loop k vars body :
  k ∉ vars ->
  (forall var, var <> k -> preserves k (body var)) ->
  preserves k (for_vars vars body).
Proof.
  intros Hk Hb. apply preserves_for_vars. intros var Hvar. apply Hb.
  intros ->. contradiction.
Qed.

Lemma ignores_loop k vars body :
  k ∉ vars ->
  (forall var, var <> k -> ignores k (body var)) ->
  ignores k (for_vars vars body).
Proof.
  intros Hk Hb. apply ignores_for_vars. intros var Hvar. apply Hb.
  intros ->. contradiction.
Qed.

Ltac unfold_stmts :=
  unfold set_is, set_notnull, clean_ptype, clean_bool, clean_int,
    clean_float, clean_string.

Ltac preserves_step :=
  lazymatch goal with
  | |- preserves _ (mret _) => apply preserves_ret
  | |- preserves _ (lift _) => apply preserves_lift
  | |- preserves _ (struct_get _) => apply preserves_get
  | |- preserves _ (struct_item _) => apply preserves_item
  | |- preserves _ (struct_has _) => apply preserves_has
  | |- preserves _ (struct_set _ _) => apply preserves_set; solve_neq
  | |- preserves _ (mbind _ _) => apply preserves_bind; [| intros ?]
  | |- preserves _ (for_vars _ _) =>
      apply preserves_loop; [solve_notin | intros ? ?; unfold_stmts]
  | |- preserves _ (if ?b then _ else _) => destruct b
  | |- preserves _ (match ?x with _ => _ end) => destruct x
  end.

Ltac preserves_tac := unfold_stmts; repeat preserves_step.

Ltac ignores_step :=
  lazymatch goal with
  | |- ignores _ (mret _) => apply ignores_ret
  | |- ignores _ (lift _) => apply ignores_lift
  | |- ignores _ (struct_get _) => apply ignores_get; solve_neq
  | |- ignores _ (struct_item _) => apply ignores_item; solve_neq
  | |- ignores _ (struct_has _) => apply ignores_has; solve_neq
  | |- ignores _ (struct_set _ _) => apply ignores_set; solve_neq
  | |- ignores _ (mbind _ _) => apply ignores_bind; [| intros ?]
  | |- ignores _ (for_vars _ _) =>
      apply ignores_loop; [solve_notin | intros ? ?; unfold_stmts]
  | |- ignores _ (if ?b then _ else _) => destruct b
  | |- ignores _ (match ?x with _ => _ end) => destruct x
  end.

Ltac ignores_tac := unfold_stmts; repeat ignores_step.

Ltac preserves_block_tac :=
  apply preserves_block; repeat (apply Forall_cons; split);
  [ preserves_tac .. | constructor ].

Ltac ignores_block_tac :=
  apply ignores_block; repeat (apply Forall_cons; split);
  [ ignores_tac .. | constructor ].

Section Stages.
Variable float_of_string : string -> option (option Q).

(** the stages of a run of [_clean_features] that returns *)
Lemma clean_features_stages st out :
  _clean_features float_of_string st = Ok out ->
  exists s1 s2 s3 s4,
    block clean_values st = Ok (tt, s1) /\
    block (clean_types float_of_string) s1 = Ok (tt, s2) /\
    add_location s2 = Ok (tt, s3) /\
    add_secsElapsed s3 = Ok (tt, s4) /\
    block add_flags s4 = Ok (tt, out).
Proof.
  unfold _clean_features, clean_features_body. intros H.
  rewrite block_cons in H.
  destruct (block clean_values st) as [[[] s1]|] eqn:H1; [|discriminate].
  rewrite block_cons in H.
  destruct (block (clean_types float_of_string) s1) as [[[] s2]|] eqn:H2;
    [|discriminate].
  rewrite block_cons in H.
  destruct (add_location s2) as [[[] s3]|] eqn:H3; [|discriminate].
  rewrite block_cons in H.
  destruct (add_secsElapsed s3) as [[[] s4]|] eqn:H4; [|discriminate].
  rewrite block_cons in H.
  destruct (block add_flags s4) as [[[] s5]|] eqn:H5; [|discriminate].
  injection H as <-. exists s1, s2, s3, s4.
  split; [reflexivity | exact (conj H2 (conj H3 (conj H4 H5)))].
Qed.

Lemma clean_features_of_stages st s1 s2 s3 s4 out :
  block clean_values st = Ok (tt, s1) ->
  block (clean_types float_of_string) s1 = Ok (tt, s2) ->
  add_location s2 = Ok (tt, s3) ->
  add_secsElapsed s3 = Ok (tt, s4) ->
  block add_flags s4 = Ok (tt, out) ->
  _clean_features float_of_string st = Ok out.
Proof.
  intros H1 H2 H3 H4 H5. unfold _clean_features, clean_features_body.
  rewrite block_cons, H1; cbv beta iota.
  rewrite block_cons, H2; cbv beta iota.
  rewrite block_cons, H3; cbv beta iota.
  rewrite block_cons, H4; cbv beta iota.
  rewrite block_cons, H5. reflexivity.
Qed.

End Stages.

Lemma add_secsElapsed_preserves k :
  k <> "secsElapsed" -> preserves k add_secsElapsed.
Proof. intros Hk. unfold add_secsElapsed. preserves_tac. Qed.

Lemma add_location_preserves k :
  k <> "fieldSide" -> k <> "ydLine" -> preserves k add_location.
Proof. intros H1 H2. unfold add_location. preserves_tac. Qed.

Lemma add_flags_preserves k :
  k ∉ ["isInt"; "isFumble"; "isPenalty"; "team_epa"; "opp_epa"] ->
  preserves k (block add_flags).
Proof.
  intros Hk. unfold add_flags.
  assert (k <> "isInt" /\ k <> "isFumble" /\ k <> "isPenalty" /\
          k <> "team_epa" /\ k <> "opp_epa") as (?&?&?&?&?).
  { rewrite !not_elem_of_cons in Hk. tauto. }
  preserves_block_tac.
Qed.

(** the one statement of a block that writes the entry [k] *)
Lemma block_single_writer k n stmts stmt st st' :
  block stmts st = Ok (tt, st') ->
  stmts !! n = Some stmt ->
  Forall (preserves k) (take n stmts) ->
  Forall (preserves k) (drop (S n) stmts) ->
  exists sa sb,
    block (take n stmts) st = Ok (tt, sa) /\ stmt sa = Ok (tt, sb) /\
    sa !! k = st !! k /\ st' !! k = sb !! k.
Proof.
  intros Hrun Hn Hpre Hpost.
  destruct (block_at n stmts st st' Hrun stmt Hn) as (sa & sb & Ha & Hs & Hb).
  exists sa, sb. split; [exact Ha|]. split; [exact Hs|]. split.
  - exact (preserves_block k _ Hpre _ _ _ Ha).
  - exact (preserves_block k _ Hpost _ _ _ Hb).
Qed.

Ltac preserves_list_tac :=
  cbv [firstn skipn clean_values add_flags];
  repeat (apply Forall_cons; split); [ preserves_tac .. | constructor ].

(** ** The normaliser [_clean_features] *)

Section NormalizerFacts.
Variable float_of_string : string -> option (option Q).

Abbreviation clean_features := (_clean_features float_of_string).

Lemma clean_values_ignores_location :
  ignores "location" (block clean_values).
Proof. unfold clean_values. ignores_block_tac. Qed.

Lemma clean_types_ignores_location :
  ignores "location" (block (clean_types float_of_string)).
Proof. unfold clean_types. ignores_block_tac. Qed.

Lemma add_secsElapsed_ignores_location : ignores "location" add_secsElapsed.
Proof. unfold add_secsElapsed. ignores_tac. Qed.

Lemma add_flags_ignores_location : ignores "location" (block add_flags).
Proof. unfold add_flags. ignores_block_tac. Qed.

(** after "Third" the flag [isXP] is a Boolean *)
Lemma typed_isXP o : typed float_of_string "isXP" o = Some (bool_of o).
Proof. reflexivity. Qed.

(** what the last two stages leave alone *)
Lemma last_stages_preserve k s3 s4 out :
  k ∉ ["isInt"; "isFumble"; "isPenalty"; "team_epa"; "opp_epa";
       "secsElapsed"] ->
  add_secsElapsed s3 = Ok (tt, s4) ->
  block add_flags s4 = Ok (tt, out) ->
  out !! k = s3 !! k.
Proof.
  intros Hk.
  assert (Hk1 : k ∉ ["isInt"; "isFumble"; "isPenalty"; "team_epa";
                     "opp_epa"]).
  { intros Hin. apply Hk. rewrite !elem_of_cons in *. tauto. }
  assert (Hk2 : k <> "secsElapsed").
  { intros ->. apply Hk. rewrite !elem_of_cons. tauto. }
  intros H4 H5.
  rewrite (add_flags_preserves k Hk1 _ _ _ H5).
  exact (add_secsElapsed_preserves k Hk2 _ _ _ H4).
Qed.

Lemma clean_values_preserves_location :
  preserves "location" (block clean_values).
Proof. unfold clean_values. preserves_block_tac. Qed.

(** [add_location] on an extra point *)
Lemma add_location_xp st :
  st !! "isXP" = Some (VBool true) ->
  add_location st
  = Ok (tt, <["ydLine" := VNaN]> (<["fieldSide" := VNaN]> st)).
Proof.
  intros H. unfold add_location. rewrite bind_run. unfold struct_item.
  rewrite H. reflexivity.
Qed.

(** [add_location] on any other play *)
Lemma add_location_other st :
  st !! "isXP" = Some (VBool false) ->
  add_location st
  = match _loc_to_features (get st "location") ≫= unpack2 with
    | Ok (fieldSide, ydline) =>
        Ok (tt, <["ydLine" := ydline]> (<["fieldSide" := fieldSide]> st))
    | Raise e => Raise e
    end.
Proof.
  intros H. unfold add_location. rewrite bind_run. unfold struct_item.
  rewrite H. cbv beta iota. change (truthy (VBool false)) with false.
  cbv beta iota. rewrite bind_run. unfold struct_get. cbv beta iota.
  rewrite bind_run. unfold lift.
  destruct (_loc_to_features (get st "location")) as [r|e]; [|reflexivity].
  cbn [mbind result_bind bind]. rewrite bind_run.
  destruct (unpack2 r) as [[fs yl]|e]; reflexivity.
Qed.

(** C10. For a play normalised with [isXP] true, [fieldSide] and [ydLine]
    are missing and the column [location] plays no part: whatever stands
    in it, the normaliser returns the same record (the cell itself apart).
    For a play with [isXP] false the two fields are the ones
    [_loc_to_features] splits out of [location]. *)
Theorem xp_ignores_location st out :
  clean_features st = Ok out ->
  (out !! "isXP" = Some (VBool true) ->
     out !! "fieldSide" = Some VNaN /\ out !! "ydLine" = Some VNaN /\
     forall loc,
       clean_features (<["location" := loc]> st)
       = Ok (<["location" := loc]> out)) /\
  (out !! "isXP" = Some (VBool false) ->
     exists fieldSide ydline,
       (_loc_to_features (get st "location") ≫= unpack2)
       = Ok (fieldSide, ydline) /\
       out !! "fieldSide" = Some fieldSide /\ out !! "ydLine" = Some ydline).
Proof.
  intros Hrun.
  destruct (clean_features_stages _ _ _ Hrun)
    as (s1 & s2 & s3 & s4 & H1 & H2 & H3 & H4 & H5).
  clear Hrun.
  destruct (clean_types_run float_of_string s1) as (s2' & H2' & Ltyped).
  rewrite H2 in H2'. injection H2' as <-.
  pose proof (Ltyped "isXP") as HXP2. rewrite typed_isXP in HXP2.
  pose proof (Ltyped "location") as Hloc2.
  change (typed float_of_string "location" (s1 !! "location"))
    with (s1 !! "location") in Hloc2.
  rewrite (clean_values_preserves_location _ _ _ H1) in Hloc2.
  assert (Hget : get s2 "location" = get st "location")
    by (unfold get; rewrite Hloc2; reflexivity).
  pose proof (fun k Hk => last_stages_preserve k s3 s4 out Hk H4 H5) as Hout.
  pose proof (add_location_preserves "isXP" ltac:(discriminate)
                ltac:(discriminate) _ _ _ H3) as HXP3.
  pose proof (Hout "isXP" ltac:(solve_notin)) as HXP.
  rewrite HXP3, HXP2 in HXP.
  pose proof (Hout "fieldSide" ltac:(solve_notin)) as Hfs.
  pose proof (Hout "ydLine" ltac:(solve_notin)) as Hyl.
  clear Hout HXP3 Ltyped Hloc2.
  split; intros HisXP; rewrite HXP in HisXP; rewrite HisXP in HXP2.
  - (* an extra point *)
    rewrite (add_location_xp _ HXP2) in H3. injection H3 as <-.
    split; [|split].
    + rewrite Hfs, lookup_insert_ne by discriminate.
      apply lookup_insert_eq.
    + rewrite Hyl. apply lookup_insert_eq.
    + intros loc.
      apply (clean_features_of_stages float_of_string _
               (<["location" := loc]> s1) (<["location" := loc]> s2)
               (<["location" := loc]>
                  (<["ydLine" := VNaN]> (<["fieldSide" := VNaN]> s2)))
               (<["location" := loc]> s4)).
      * rewrite clean_values_ignores_location, H1. reflexivity.
      * rewrite clean_types_ignores_location, H2. reflexivity.
      * rewrite add_location_xp
          by (rewrite lookup_insert_ne by discriminate; exact HXP2).
        rewrite (insert_insert_ne _ "fieldSide" "location") by discriminate.
        rewrite (insert_insert_ne _ "ydLine" "location") by discriminate.
        reflexivity.
      * rewrite add_secsElapsed_ignores_location, H4. reflexivity.
      * rewrite add_flags_ignores_location, H5. reflexivity.
  - (* any other play *)
    rewrite (add_location_other _ HXP2), Hget in H3.
    destruct (_loc_to_features (get st "location") ≫= unpack2)
      as [[fs yl]|e]; [|discriminate].
    injection H3 as <-. exists fs, yl. split; [reflexivity|]. split.
    + rewrite Hfs, lookup_insert_ne by discriminate.
      apply lookup_insert_eq.
    + rewrite Hyl. apply lookup_insert_eq.
Qed.

Lemma clean_values_quarter st s1 q0 :
  block clean_values st = Ok (tt, s1) ->
  st !! "quarter" = Some q0 ->
  s1 !! "quarter" = Some (if py_eq q0 (VStr "OT") then VInt 5 else q0).
Proof.
  intros Hrun Hq.
  destruct (block_single_writer "quarter" 18 clean_values _ st s1 Hrun
              eq_refl) as (sa & sb & _ & Hs & Ha & Hb).
  - preserves_list_tac.
  - preserves_list_tac.
  - rewrite Hb. rewrite <- Ha in Hq. clear Ha Hb Hrun.
    rewrite bind_run in Hs. unfold struct_item in Hs. rewrite Hq in Hs.
    cbv beta iota in Hs.
    destruct (py_eq q0 (VStr "OT")).
    + unfold struct_set in Hs. injection Hs as <-. apply lookup_insert_eq.
    + unfold mret, M_ret in Hs. injection Hs as <-. exact Hq.
Qed.

Lemma clean_values_preserves_clock :
  preserves "qtr_time_remain" (block clean_values).
Proof. unfold clean_values. preserves_block_tac. Qed.

Lemma ints_of_pair mins secs m s :
  int_of_string mins = Some m -> int_of_string secs = Some s ->
  ints_of [mins; secs] = Ok [m; s].
Proof.
  intros Hm Hs. unfold ints_of, py_int. rewrite Hm, Hs. reflexivity.
Qed.

Lemma add_secsElapsed_run st clock qtr ts mins secs v :
  st !! "qtr_time_remain" = Some (VStr clock) ->
  st !! "quarter" = Some qtr ->
  clock_ints (VStr clock) = Ok ts -> unpack_clock ts = Ok (mins, secs) ->
  secs_elapsed qtr mins secs = Ok v ->
  add_secsElapsed st = Ok (tt, <["secsElapsed" := v]> st).
Proof.
  intros Hc Hq Hts Hu Hv.
  unfold add_secsElapsed, mbind, M_bind, struct_get, struct_item, lift,
    struct_set, get.
  rewrite Hc. cbv [default from_option id notnull].
  rewrite Hq. cbv beta iota. rewrite Hc. cbv beta iota.
  rewrite Hts. cbv beta iota. rewrite Hu. cbv beta iota.
  rewrite Hv. reflexivity.
Qed.

(** C7. For a play whose clock reads [mins:secs], the normaliser sets
    [secsElapsed] to quarter * 900 - (mins * 60 + secs), the quarter being
    5 for ["OT"] and the integer value of the column otherwise. *)
Theorem secsElapsed_formula st out q0 clock mins secs q m s :
  clean_features st = Ok out ->
  st !! "quarter" = Some q0 ->
  py_int (if py_eq q0 (VStr "OT") then VInt 5 else q0) = Ok q ->
  st !! "qtr_time_remain" = Some (VStr clock) ->
  split_on ":" clock = [mins; secs] ->
  int_of_string mins = Some m -> int_of_string secs = Some s ->
  out !! "secsElapsed" = Some (VInt (q * 900 - (m * 60 + s))).
Proof.
  intros Hrun Hq0 Hq Hclock Hsplit Hm Hs.
  destruct (clean_features_stages _ _ _ Hrun)
    as (s1 & s2 & s3 & s4 & H1 & H2 & H3 & H4 & H5).
  clear Hrun.
  destruct (clean_types_run float_of_string s1) as (s2' & H2' & Ltyped).
  rewrite H2 in H2'. injection H2' as <-.
  (* the quarter is an integer after "Third" *)
  pose proof (Ltyped "quarter") as Hq2.
  rewrite (clean_values_quarter _ _ _ H1 Hq0) in Hq2.
  change (typed float_of_string "quarter" ?o) with (Some (int_of o)) in Hq2.
  cbv [int_of default from_option id] in Hq2. rewrite Hq in Hq2.
  (* the clock is as it was *)
  pose proof (Ltyped "qtr_time_remain") as Hc2.
  rewrite (clean_values_preserves_clock _ _ _ H1), Hclock in Hc2.
  change (typed float_of_string "qtr_time_remain" (Some (VStr clock)))
    with (Some (VStr clock)) in Hc2.
  clear Ltyped H1 H2.
  rewrite <- (add_location_preserves "quarter" ltac:(discriminate)
                ltac:(discriminate) _ _ _ H3) in Hq2.
  rewrite <- (add_location_preserves "qtr_time_remain" ltac:(discriminate)
                ltac:(discriminate) _ _ _ H3) in Hc2.
  rewrite (add_secsElapsed_run s3 clock (VInt q) [m; s] m s
             (VInt (q * 900 - m * 60 - s)) Hc2 Hq2) in H4.
  - injection H4 as <-.
    rewrite (add_flags_preserves "secsElapsed" ltac:(solve_notin) _ _ _ H5).
    rewrite lookup_insert_eq. do 2 f_equal. lia.
  - unfold clock_ints. rewrite Hsplit. exact (ints_of_pair _ _ _ _ Hm Hs).
  - reflexivity.
  - reflexivity.
Qed.

End NormalizerFacts.

(** a play as [expand_details] hands it to the normaliser *)
Lemma secsElapsed_formula_witness :
  exists out,
    _clean_features (fun _ => None)
      (list_to_map
         [("quarter", VFloat 2); ("qtr_time_remain", VStr "10:30");
          ("location", VStr "NWE 35"); ("down", VFloat 1);
          ("detail",
           VStr "BradTo00 left end for 7 yards (tackle by SmitJo01)");
          ("isRun", VBool true); ("rusher", VStr "BradTo00");
          ("rushDir", VStr "left end"); ("rushYds", VStr "7");
          ("tackler1", VStr "SmitJo01")]) = Ok out /\
    out !! "secsElapsed" = Some (VInt 1170).
Proof.
  match goal with
  | |- exists out, ?run = Ok out /\ _ =>
      destruct (returns_with_spec run (fun _ => true)) as (out & Hrun & _);
        [vm_compute; reflexivity|]
  end.
  exists out. split; [exact Hrun|].
  apply (secsElapsed_formula _ _ out (VFloat 2) "10:30" "10" "30" 2 10 30
           Hrun); vm_compute; reflexivity.
Defined.

(** in overtime the quarter counts as the fifth *)
Lemma secsElapsed_overtime :
  exists out,
    _clean_features (fun _ => None)
      (list_to_map
         [("quarter", VStr "OT"); ("qtr_time_remain", VStr "9:15")])
    = Ok out /\
    out !! "secsElapsed" = Some (VInt (5 * 900 - (9 * 60 + 15))).
Proof.
  match goal with
  | |- exists out, ?run = Ok out /\ _ =>
      destruct (returns_with_spec run (fun _ => true)) as (out & Hrun & _);
        [vm_compute; reflexivity|]
  end.
  exists out. split; [exact Hrun|].
  apply (secsElapsed_formula _ _ out (VStr "OT") "9:15" "9" "15" 5 9 15
           Hrun); vm_compute; reflexivity.
Defined.

Lemma xp_ignores_location_witness :
  exists out,
    _clean_features (fun _ => None)
      (list_to_map
         [("quarter", VFloat 2); ("qtr_time_remain", VStr "10:30");
          ("location", VStr "DEN 2");
          ("detail", VStr "TuckJu00 kicks extra point good");
          ("isXP", VBool true); ("xpKicker", VStr "TuckJu00");
          ("xpGood", VStr "good")]) = Ok out /\
    out !! "isXP" = Some (VBool true) /\
    out !! "fieldSide" = Some VNaN /\ out !! "ydLine" = Some VNaN.
Proof.
  match goal with
  | |- exists out, ?run = Ok out /\ _ =>
      destruct (returns_with_spec run
                  (fun out => match out !! "isXP" with
                              | Some (VBool true) => true
                              | _ => false
                              end)) as (out & Hrun & HXP);
        [vm_compute; reflexivity|]
  end.
  exists out. split; [exact Hrun|].
  assert (HXP' : out !! "isXP" = Some (VBool true))
    by (destruct (out !! "isXP") as [[| |[]| | |]|]; first [reflexivity | discriminate]).
  split; [exact HXP'|].
  destruct (xp_ignores_location _ _ out Hrun) as [Hxp _].
  destruct (Hxp HXP') as (Hfs & Hyl & _). exact (conj Hfs Hyl).
Defined.

(** ** [_loc_to_features] *)

Lemma contains_space_nonempty s : contains " " (strip s) = true -> s <> "".
Proof. intros H ->. discriminate H. Qed.

(** the claim as the specification words it fails on the empty location:
    the yard line comes out missing, not 50 *)
Lemma loc_empty_not_fifty :
  _loc_to_features (VStr "") <> Ok [VNaN; VInt 50].
Proof. discriminate. Qed.

(** C8, amended.  A string "abbr number" gives the abbreviation in lower
    case and the number; a string holding only a number gives a missing
    side and that number; a float other than zero (a not-a-number too)
    gives a missing side and 50; the empty string, [None] and 0.0 give a
    missing side and a missing yard line. *)
Theorem loc_to_features_cases :
  (forall s abbr num n,
     contains " " (strip s) = true ->
     split_ws (strip s) = [abbr; num] ->
     int_of_string num = Some n ->
     _loc_to_features (VStr s) = Ok [VStr (lower abbr); VInt n]) /\
  (forall s n,
     s <> "" -> contains " " (strip s) = false ->
     int_of_string (strip s) = Some n ->
     _loc_to_features (VStr s) = Ok [VNaN; VInt n]) /\
  (forall q, Qeq_bool q 0 = false ->
     _loc_to_features (VFloat q) = Ok [VNaN; VInt 50]) /\
  _loc_to_features VNaN = Ok [VNaN; VInt 50] /\
  _loc_to_features (VStr "") = Ok [VNaN; VNaN] /\
  _loc_to_features VNone = Ok [VNaN; VNaN] /\
  _loc_to_features (VFloat 0) = Ok [VNaN; VNaN].
Proof.
  repeat split.
  - intros s abbr num n Hsp Hsplit Hnum.
    assert (Hs : String.eqb s "" = false)
      by (apply String.eqb_neq; exact (contains_space_nonempty s Hsp)).
    unfold _loc_to_features, truthy. rewrite Hs. cbn [negb].
    rewrite Hsp, Hsplit. unfold py_int. rewrite Hnum. reflexivity.
  - intros s n Hne Hsp Hnum.
    assert (Hs : String.eqb s "" = false) by (by apply String.eqb_neq).
    unfold _loc_to_features, truthy. rewrite Hs. cbn [negb].
    rewrite Hsp. unfold py_int. rewrite Hnum. reflexivity.
  - intros q Hq. unfold _loc_to_features, truthy. rewrite Hq. reflexivity.
Qed.

Lemma loc_to_features_cases_witness :
  _loc_to_features (VStr "NWE 35") = Ok [VStr "nwe"; VInt 35] /\
  _loc_to_features (VStr " 50") = Ok [VNaN; VInt 50] /\
  _loc_to_features (VFloat 50) = Ok [VNaN; VInt 50].
Proof.
  destruct loc_to_features_cases as (Hcombined & Hbare & Hfloat & _).
  split; [|split].
  - apply (Hcombined "NWE 35" "NWE" "35" 35); reflexivity.
  - apply (Hbare " 50" 50); [discriminate | reflexivity | reflexivity].
  - apply (Hfloat 50%Q). reflexivity.
Defined.
Import Sem.

(** ** The matcher finds only matches *)

Lemma slice_from_length n s :
  String.length (slice_from n s) = (String.length s - n)%nat.
Proof.
  revert s. induction n as [|n IH]; intros [|c s]; simpl; try lia. apply IH.
Qed.

Lemma slice_to_length n s :
  String.length (slice_to n s) = Nat.min n (String.length s).
Proof.
  revert s. induction n as [|n IH]; intros [|c s]; simpl; try lia.
  rewrite IH. lia.
Qed.

Lemma slice_from_add n1 n2 s :
  slice_from n2 (slice_from n1 s) = slice_from (n1 + n2) s.
Proof.
  revert s. induction n1 as [|n1 IH]; intros s; [reflexivity|].
  destruct s as [|c s]; simpl.
  - by destruct n2.
  - apply IH.
Qed.

Lemma eat_spec l s s' :
  eat l s = Some s' ->
  s' = slice_from (String.length l) s /\
  (String.length l <= String.length s)%nat.
Proof.
  revert s. induction l as [|a l IH]; intros s H; simpl in *.
  - injection H as <-. split; [reflexivity | lia].
  - destruct s as [|b s]; [discriminate|].
    destruct (Ascii.eqb _ _); [|discriminate].
    destruct (IH s H) as [-> Hlen]. split; [reflexivity | simpl; lia].
Qed.

Lemma within_0 hi : within 0 hi.
Proof. destruct hi; simpl; [lia | done]. Qed.

Lemma within_S n hi : can_more hi = true -> within n (less hi) -> within (S n) hi.
Proof. destruct hi as [[|h]|]; simpl; [discriminate | lia | done]. Qed.

Lemma rep_stop {A} lo hi s pos (k : string -> nat -> option A) res :
  (if Nat.eqb lo 0 then k s pos else None) = Some res ->
  exists n, (lo <= n <= String.length s)%nat /\ within n hi /\
            all_in Any (slice_to n "") /\ n = 0%nat /\ k s pos = Some res.
Proof.
  intros H. destruct (Nat.eqb_spec lo 0) as [->|]; [|discriminate].
  exists 0%nat. split; [lia|]. split; [apply within_0|]. by repeat split.
Qed.

Lemma rep_greedy_sound {A} c lo hi s pos (k : string -> nat -> option A) res :
  rep_greedy c lo hi s pos k = Some res ->
  exists n, (lo <= n <= String.length s)%nat /\ within n hi /\
            all_in c (slice_to n s) /\
            k (slice_from n s) (pos + n)%nat = Some res.
Proof.
  revert lo hi pos. induction s as [|a s IH]; intros lo hi pos H; simpl in H.
  - destruct (rep_stop _ hi _ _ _ _ H) as (n & Hn & Hw & _ & -> & Hk).
    exists 0%nat. rewrite Nat.add_0_r.
    split; [exact Hn|]. split; [exact Hw|]. split; [exact I | first [exact Hk' | exact Hk]].
  - assert (Hstop : (if Nat.eqb lo 0 then k (String a s) pos else None)
                    = Some res ->
            exists n, (lo <= n <= String.length (String a s))%nat /\
              within n hi /\ all_in c (slice_to n (String a s)) /\
              k (slice_from n (String a s)) (pos + n)%nat = Some res).
    { intros Hk.
      destruct (rep_stop _ hi _ _ _ _ Hk) as (n & Hn & Hw & _ & -> & Hk').
      exists 0%nat. rewrite Nat.add_0_r.
    split; [exact Hn|]. split; [exact Hw|]. split; [exact I | first [exact Hk' | exact Hk]]. }
    destruct (can_more hi && cls_match c a) eqn:Hc; [|by apply Hstop].
    apply andb_true_iff in Hc as [Hmore Hc].
    destruct (rep_greedy c (Nat.pred lo) (less hi) s (S pos) k) eqn:Hr;
      [|by apply Hstop].
    injection H as ->.
    destruct (IH _ _ _ Hr) as (n & Hn & Hw & Hall & Hk).
    exists (S n). simpl. split; [lia|]. split; [by apply within_S|].
    split; [by split|]. by rewrite Nat.add_succ_r.
Qed.

Lemma rep_lazy_sound {A} c lo hi s pos (k : string -> nat -> option A) res :
  rep_lazy c lo hi s pos k = Some res ->
  exists n, (lo <= n <= String.length s)%nat /\ within n hi /\
            all_in c (slice_to n s) /\
            k (slice_from n s) (pos + n)%nat = Some res.
Proof.
  revert lo hi pos. induction s as [|a s IH]; intros lo hi pos H; simpl in H.
  - destruct (if Nat.eqb lo 0 then k "" pos else None) eqn:Hk;
      [|discriminate].
    injection H as ->.
    destruct (rep_stop _ hi _ _ _ _ Hk) as (n & Hn & Hw & _ & -> & Hk').
    exists 0%nat. rewrite Nat.add_0_r.
    split; [exact Hn|]. split; [exact Hw|]. split; [exact I | first [exact Hk' | exact Hk]].
  - destruct (if Nat.eqb lo 0 then k (String a s) pos else None) eqn:Hk.
    + injection H as ->.
      destruct (rep_stop _ hi _ _ _ _ Hk) as (n & Hn & Hw & _ & -> & Hk').
      exists 0%nat. rewrite Nat.add_0_r.
    split; [exact Hn|]. split; [exact Hw|]. split; [exact I | first [exact Hk' | exact Hk]].
    + destruct (can_more hi && cls_match c a) eqn:Hc; [|discriminate].
      apply andb_true_iff in Hc as [Hmore Hc].
      destruct (IH _ _ _ H) as (n & Hn & Hw & Hall & Hk').
      exists (S n). simpl. split; [lia|]. split; [by apply within_S|].
      split; [by split|]. by rewrite Nat.add_succ_r.
Qed.

Theorem rmatch_sound {A} r :
  forall s pos cs (k : string -> nat -> caps -> option A) res,
    rmatch r s pos cs k = Some res ->
    exists n cs',
      matches r s n cs cs' /\ (n <= String.length s)%nat /\
      k (slice_from n s) (pos + n)%nat cs' = Some res.
Proof.
  induction r as [| | |l|g c lo hi|r1 IH1 r2 IH2|r1 IH1 r2 IH2|r1 IH1
                 |name r1 IH1]; intros s pos cs k res H; simpl in H.
  - exists 0%nat, cs. rewrite Nat.add_0_r. simpl. repeat split; [lia|done].
  - destruct (Nat.eqb pos 0); [|discriminate].
    exists 0%nat, cs. rewrite Nat.add_0_r. simpl. repeat split; [lia|done].
  - exists 0%nat, cs. rewrite Nat.add_0_r. simpl.
    repeat split; [lia|].
    destruct s as [|c [|]]; try discriminate; [done|].
    by destruct (code c =? 10)%N.
  - destruct (eat l s) as [s'|] eqn:He; [|discriminate].
    destruct (eat_spec _ _ _ He) as [-> Hlen].
    exists (String.length l), cs. simpl. repeat split; [done|done|done].
  - assert (exists n, (lo <= n <= String.length s)%nat /\ within n hi /\
              all_in c (slice_to n s) /\
              k (slice_from n s) (pos + n)%nat cs = Some res)
      as (n & Hn & Hw & Hall & Hk).
    { destruct g;
        [exact (rep_greedy_sound c lo hi s pos (fun s' p' => k s' p' cs) res H)
        |exact (rep_lazy_sound c lo hi s pos (fun s' p' => k s' p' cs) res H)]. }
    exists n, cs. simpl. repeat split; [lia|lia|done|done|lia|done].
  - destruct (IH1 _ _ _ _ _ H) as (n1 & cs1 & Hm1 & Hn1 & Hk1).
    destruct (IH2 _ _ _ _ _ Hk1) as (n2 & cs2 & Hm2 & Hn2 & Hk2).
    rewrite slice_from_length in Hn2.
    exists (n1 + n2)%nat, cs2. split; [|split].
    + simpl. exists n1, n2, cs1. done.
    + lia.
    + rewrite slice_from_add, <- Nat.add_assoc in Hk2. exact Hk2.
  - destruct (rmatch r1 s pos cs k) eqn:H1.
    + injection H as ->.
      destruct (IH1 _ _ _ _ _ H1) as (n & cs' & Hm & Hn & Hk).
      exists n, cs'. simpl. auto.
    + destruct (IH2 _ _ _ _ _ H) as (n & cs' & Hm & Hn & Hk).
      exists n, cs'. simpl. auto.
  - destruct (rmatch r1 s pos cs k) eqn:H1.
    + injection H as ->.
      destruct (IH1 _ _ _ _ _ H1) as (n & cs' & Hm & Hn & Hk).
      exists n, cs'. simpl. auto.
    + exists 0%nat, cs. rewrite Nat.add_0_r. simpl.
      split; [by right|]. split; [lia|done].
  - destruct (IH1 _ _ _ _ _ H) as (n & cs1 & Hm & Hn & Hk).
    exists n, (<[name := slice_to n s]> cs1). simpl.
    split; [by exists cs1|]. split; [done|].
    replace (pos + n - pos)%nat with n in Hk by lia. exact Hk.
Qed.

(** [search] returns a match of some suffix of the string *)
Lemma search_from_sound r s pos m :
  search_from r s pos = Some m ->
  exists i n,
    (i <= String.length s)%nat /\
    (n <= String.length (slice_from i s))%nat /\
    matches r (slice_from i s) n ∅ m.
Proof.
  revert pos. induction s as [|a s IH]; intros pos H; simpl in H.
  - destruct (rmatch r "" pos ∅ _) eqn:Hr; [|discriminate].
    injection H as ->.
    destruct (rmatch_sound _ _ _ _ _ _ Hr) as (n & cs' & Hm & Hn & Hk).
    injection Hk as ->. exists 0%nat, n. simpl. split; [lia|]. done.
  - destruct (rmatch r (String a s) pos ∅ _) eqn:Hr.
    + injection H as ->.
      destruct (rmatch_sound _ _ _ _ _ _ Hr) as (n & cs' & Hm & Hn & Hk).
      injection Hk as ->. exists 0%nat, n. simpl. split; [lia|]. done.
    + destruct (IH _ H) as (i & n & Hi & Hn & Hm).
      exists (S i), n. simpl. split; [lia|]. done.
Qed.

Lemma search_sound r s m :
  search r s = Some m ->
  exists i n,
    (i <= String.length s)%nat /\
    (n <= String.length (slice_from i s))%nat /\
    matches r (slice_from i s) n ∅ m.
Proof. apply search_from_sound. Qed.

(** *** What the captures of a match are *)

(** a group the pattern does not contain is left alone *)
Lemma matches_other name r :
  name ∉ group_names r ->
  forall s n cs cs', matches r s n cs cs' -> cs' !! name = cs !! name.
Proof.
  induction r as [| | |l|g c lo hi|r1 IH1 r2 IH2|r1 IH1 r2 IH2|r1 IH1
                 |name' r1 IH1]; simpl; intros Hnot s n cs cs' H.
  - by destruct H as [_ ->].
  - by destruct H as [_ ->].
  - by destruct H as [_ ->].
  - by destruct H as (_ & _ & ->).
  - by destruct H as (_ & _ & _ & ->).
  - destruct H as (n1 & n2 & cs1 & _ & H1 & H2).
    rewrite not_elem_of_app in Hnot. destruct Hnot as [Hn1 Hn2].
    rewrite (IH2 Hn2 _ _ _ _ H2). exact (IH1 Hn1 _ _ _ _ H1).
  - rewrite not_elem_of_app in Hnot. destruct Hnot as [Hn1 Hn2].
    destruct H as [H|H]; [exact (IH1 Hn1 _ _ _ _ H) | exact (IH2 Hn2 _ _ _ _ H)].
  - destruct H as [H|[_ ->]]; [exact (IH1 Hnot _ _ _ _ H) | done].
  - rewrite not_elem_of_cons in Hnot. destruct Hnot as [Hne Hn1].
    destruct H as (cs1 & H1 & ->).
    rewrite lookup_insert_ne by done. exact (IH1 Hn1 _ _ _ _ H1).
Qed.

(** a capture is no longer than the string matched *)
Lemma matches_bound r :
  forall s n cs cs', matches r s n cs cs' ->
  forall name v, cs' !! name = Some v ->
    cs !! name = Some v \/ (String.length v <= String.length s)%nat.
Proof.
  induction r as [| | |l|g c lo hi|r1 IH1 r2 IH2|r1 IH1 r2 IH2|r1 IH1
                 |name' r1 IH1]; simpl; intros s n cs cs' H name v Hv.
  - destruct H as [_ ->]. by left.
  - destruct H as [_ ->]. by left.
  - destruct H as [_ ->]. by left.
  - destruct H as (_ & _ & ->). by left.
  - destruct H as (_ & _ & _ & ->). by left.
  - destruct H as (n1 & n2 & cs1 & _ & H1 & H2).
    destruct (IH2 _ _ _ _ H2 _ _ Hv) as [Hv1|Hlen].
    + exact (IH1 _ _ _ _ H1 _ _ Hv1).
    + right. rewrite slice_from_length in Hlen. lia.
  - destruct H as [H|H]; [exact (IH1 _ _ _ _ H _ _ Hv)
                         | exact (IH2 _ _ _ _ H _ _ Hv)].
  - destruct H as [H|[_ ->]]; [exact (IH1 _ _ _ _ H _ _ Hv) | by left].
  - destruct H as (cs1 & H1 & ->).
    destruct (decide (name' = name)) as [->|Hne].
    + rewrite lookup_insert_eq in Hv. injection Hv as <-.
      right. rewrite slice_to_length. lia.
    + rewrite lookup_insert_ne in Hv by done.
      exact (IH1 _ _ _ _ H1 _ _ Hv).
Qed.

Lemma matches_le r :
  forall s n cs cs', matches r s n cs cs' -> (n <= String.length s)%nat.
Proof.
  induction r as [| | |l|g c lo hi|r1 IH1 r2 IH2|r1 IH1 r2 IH2|r1 IH1
                 |name' r1 IH1]; simpl; intros s n cs cs' H.
  - destruct H as [-> _]. lia.
  - destruct H as [-> _]. lia.
  - destruct H as [-> _]. lia.
  - destruct H as (-> & He & _). by destruct (eat_spec _ _ _ He).
  - destruct H as (Hn & _). lia.
  - destruct H as (n1 & n2 & cs1 & -> & H1 & H2).
    apply IH1 in H1. apply IH2 in H2. rewrite slice_from_length in H2. lia.
  - destruct H as [H|H]; [exact (IH1 _ _ _ _ H) | exact (IH2 _ _ _ _ H)].
  - destruct H as [H|[-> _]]; [exact (IH1 _ _ _ _ H) | lia].
  - destruct H as (cs1 & H1 & _). exact (IH1 _ _ _ _ H1).
Qed.

(** a capture of a group called [name] satisfies what the bodies of the
    groups of that name guarantee *)
Lemma matches_group P name r :
  Forall (consumes_only P) (bodies name r) ->
  forall s n cs cs', matches r s n cs cs' ->
  (forall v, cs !! name = Some v -> P v) ->
  forall v, cs' !! name = Some v -> P v.
Proof.
  induction r as [| | |l|g c lo hi|r1 IH1 r2 IH2|r1 IH1 r2 IH2|r1 IH1
                 |name' r1 IH1]; simpl; intros Hs s n cs cs' H Hcs v Hv.
  - destruct H as [_ ->]. by apply Hcs.
  - destruct H as [_ ->]. by apply Hcs.
  - destruct H as [_ ->]. by apply Hcs.
  - destruct H as (_ & _ & ->). by apply Hcs.
  - destruct H as (_ & _ & _ & ->). by apply Hcs.
  - apply Forall_app in Hs as [Hs1 Hs2].
    destruct H as (n1 & n2 & cs1 & -> & H1 & H2).
    eapply (IH2 Hs2 _ _ _ _ H2); [|exact Hv].
    intros v1 Hv1. exact (IH1 Hs1 _ _ _ _ H1 Hcs v1 Hv1).
  - apply Forall_app in Hs as [Hs1 Hs2].
    destruct H as [H|H]; [exact (IH1 Hs1 _ _ _ _ H Hcs v Hv)
                         | exact (IH2 Hs2 _ _ _ _ H Hcs v Hv)].
  - destruct H as [H|[_ ->]]; [exact (IH1 Hs _ _ _ _ H Hcs v Hv)
                              | by apply Hcs].
  - apply Forall_app in Hs as [Hhere Hs1]. destruct H as (cs1 & H1 & ->).
    destruct (String.eqb_spec name' name) as [Heq|Hne].
    + subst name'. rewrite lookup_insert_eq in Hv. injection Hv as <-.
      apply Forall_cons in Hhere as [Hbody _]. exact (Hbody _ _ _ _ H1).
    + rewrite lookup_insert_ne in Hv by done.
      exact (IH1 Hs1 _ _ _ _ H1 Hcs v Hv).
Qed.

(** a group that every match of [r] goes through is always captured *)
Lemma matches_seq_group name body rest s n cs cs' :
  name ∉ group_names rest ->
  matches (Seq (Grp name body) rest) s n cs cs' ->
  exists v, cs' !! name = Some v.
Proof.
  intros Hnot (n1 & n2 & cs1 & _ & (cs0 & _ & ->) & H2).
  rewrite (matches_other name rest Hnot _ _ _ _ H2), lookup_insert_eq. eauto.
Qed.
Import Sem.

(** ** The classifier [parse_play_details] *)

Lemma rev_string_length acc s :
  String.length (rev_string acc s)
  = (String.length acc + String.length s)%nat.
Proof.
  revert acc. induction s as [|c s IH]; intros acc; simpl; [lia|].
  rewrite IH. simpl. lia.
Qed.

Lemma lstrip_by_length sp s :
  (String.length (lstrip_by sp s) <= String.length s)%nat.
Proof.
  induction s as [|c s IH]; simpl; [lia|]. destruct (sp c); simpl; lia.
Qed.

Lemma strip_length s : (String.length (strip s) <= String.length s)%nat.
Proof.
  unfold strip, strip_by. rewrite rev_string_length. simpl.
  etransitivity; [apply lstrip_by_length|].
  rewrite rev_string_length. simpl. apply lstrip_by_length.
Qed.

(** the description the matchers see is no longer than the one given *)
Lemma handle_challenge_length d st d' :
  handle_challenge d = Ok (st, d') ->
  (String.length d' <= String.length d)%nat.
Proof.
  unfold handle_challenge. intros H.
  destruct (search challengeRE d); [|by injection H as _ <-].
  destruct (contains "overturned" d); [|by injection H as _ <-].
  destruct (index "overturned." d) as [i|]; [|discriminate].
  injection H as _ <-.
  etransitivity; [apply strip_length|]. rewrite slice_from_length. lia.
Qed.

(** the play inside a two-point conversion is shorter than the description *)
Lemma twoPoint_shorter d m v :
  search twoPointRE d = Some m -> m !! "twoPoint" = Some v ->
  (String.length v < String.length d)%nat.
Proof.
  intros Hs Hv.
  destruct (search_sound _ _ _ Hs) as (i & n & Hi & Hn & Hm).
  unfold twoPointRE, seqs in Hm. cbn [foldr] in Hm.
  destruct Hm as (n1 & n2 & cs1 & _ & HL & Hrest).
  destruct HL as (-> & Heat & ->).
  apply eat_spec in Heat as [_ Hlen].
  destruct (matches_bound _ _ _ _ _ Hrest _ _ Hv) as [Hnone|Hle].
  - rewrite lookup_empty in Hnone. discriminate.
  - rewrite !slice_from_length in *. simpl in *. lia.
Qed.

Lemma parse_fuel_nonstring fuel v :
  (forall s, v <> VStr s) -> parse_fuel fuel v = Ok None.
Proof.
  intros Hv. destruct fuel; [reflexivity|].
  destruct v; try reflexivity. by destruct (Hv s).
Qed.

Lemma parse_fuel_agree n m :
  forall d, (String.length d < n)%nat -> (String.length d < m)%nat ->
            parse_fuel n (VStr d) = parse_fuel m (VStr d).
Proof.
  revert m. induction n as [|n IH]; intros m d Hn Hm; [lia|].
  destruct m as [|m]; [lia|].
  cbn [parse_fuel].
  destruct (handle_challenge d) as [[st0 d']|e] eqn:Hc; [|reflexivity].
  apply handle_challenge_length in Hc.
  unfold mbind, result_bind, bind.
  destruct (search kickoffRE d'); [reflexivity|].
  destruct (search timeoutRE d'); [reflexivity|].
  destruct (search fgRE d'); [reflexivity|].
  destruct (search puntRE d'); [reflexivity|].
  destruct (search kneelRE d'); [reflexivity|].
  destruct (search spikeRE d'); [reflexivity|].
  destruct (search extraPointRE d'); [reflexivity|].
  destruct (search twoPointRE d') as [mm|] eqn:Htp; [|reflexivity].
  assert (Hrec : parse_fuel n (group mm "twoPoint")
                 = parse_fuel m (group mm "twoPoint")).
  { unfold group. destruct (mm !! "twoPoint") as [v|] eqn:Hv.
    - pose proof (twoPoint_shorter _ _ _ Htp Hv). apply IH; lia.
    - rewrite !parse_fuel_nonstring by done. reflexivity. }
  rewrite Hrec. reflexivity.
Qed.



(** the recursive call of the body, whatever its argument *)
Lemma parse_fuel_rec d m :
  (forall v, m !! "twoPoint" = Some v ->
             (String.length v < String.length d)%nat) ->
  parse_fuel (String.length d) (group m "twoPoint")
  = parse_play_details (group m "twoPoint").
Proof.
  intros Hv. unfold group. destruct (m !! "twoPoint") as [v|].
  - unfold parse_play_details, fuel_for.
    pose proof (Hv v eq_refl). apply parse_fuel_agree; lia.
  - unfold parse_play_details. by rewrite !parse_fuel_nonstring.
Qed.

(** X2. After the challenge block, [parse_play_details] is the first match
    over the fixed list Kickoff, Timeout, FieldGoal, Punt, Kneel, Spike,
    ExtraPoint, TwoPointConversion, Pass, PresnapPenalty, Run: it returns
    the structured capture of the first category whose pattern is found
    in the description, and [None] when none is. *)
Theorem classifier_first_match d st0 d' :
  handle_challenge d = Ok (st0, d') ->
  parse_play_details (VStr d) =
  match first_match priority d' with
  | Some (c, m) =>
      structured_capture c m
        (<["isLateral" := VBool (contains "lateral" d')]> st0)
      ≫= fun st => Ok (Some st)
  | None => Ok None
  end.
Proof.
  intros Hc. unfold parse_play_details, fuel_for. cbn [parse_fuel].
  rewrite Hc. pose proof (handle_challenge_length _ _ _ Hc) as Hlen.
  unfold priority. cbn [first_match matcher].
  unfold mbind at 1, result_bind at 1, bind at 1.
  destruct (search kickoffRE d'); [reflexivity|].
  destruct (search timeoutRE d'); [reflexivity|].
  destruct (search fgRE d'); [reflexivity|].
  destruct (search puntRE d'); [reflexivity|].
  destruct (search kneelRE d'); [reflexivity|].
  destruct (search spikeRE d'); [reflexivity|].
  destruct (search extraPointRE d'); [reflexivity|].
  destruct (search twoPointRE d') as [mm|] eqn:Htp.
  - cbn [structured_capture].
    rewrite (parse_fuel_rec d mm).
    + unfold mbind, result_bind, bind.
      destruct (parse_play_details (group mm "twoPoint")) as [[rp|]|e];
        reflexivity.
    + intros v Hv. pose proof (twoPoint_shorter _ _ _ Htp Hv). lia.
  - destruct (search passRE d'); [reflexivity|].
    destruct (search psPenaltyRE d'); [reflexivity|].
    destruct (search rushRE d'); reflexivity.
Qed.

Lemma classifier_first_match_witness :
  parse_play_details (VStr "BradTo00 kneels for -1 yards") =
  match first_match priority "BradTo00 kneels for -1 yards" with
  | Some (c, m) =>
      structured_capture c m
        (<["isLateral" := VBool false]> (<["isChallenge" := VBool false]> ∅))
      ≫= fun st => Ok (Some st)
  | None => Ok None
  end.
Proof.
  apply (classifier_first_match "BradTo00 kneels for -1 yards"
           (<["isChallenge" := VBool false]> ∅)
           "BradTo00 kneels for -1 yards").
  unfold handle_challenge.
  rewrite (none_by_check (search challengeRE "BradTo00 kneels for -1 yards"))
    by (vm_compute; reflexivity).
  reflexivity.
Defined.

Lemma handle_challenge_raises d e :
  handle_challenge d = Raise e -> e = ValueError.
Proof.
  unfold handle_challenge, index. intros H.
  destruct (search challengeRE d); [|discriminate].
  destruct (contains "overturned" d); [|discriminate].
  destruct (find "overturned." d); [discriminate|].
  by injection H as <-.
Qed.

Lemma parse_fuel_raises fuel :
  forall details e, parse_fuel fuel details = Raise e -> e = ValueError.
Proof.
  induction fuel as [|fuel IH]; intros details e H; [discriminate|].
  cbn [parse_fuel] in H. destruct details as [| | | | |d]; try discriminate.
  destruct (handle_challenge d) as [[st0 d']|e'] eqn:Hc.
  - unfold mbind at 1, result_bind at 1, bind at 1 in H.
    destruct (search kickoffRE d'); [discriminate|].
    destruct (search timeoutRE d'); [discriminate|].
    destruct (search fgRE d'); [discriminate|].
    destruct (search puntRE d'); [discriminate|].
    destruct (search kneelRE d'); [discriminate|].
    destruct (search spikeRE d'); [discriminate|].
    destruct (search extraPointRE d'); [discriminate|].
    destruct (search twoPointRE d') as [mm|].
    + unfold mbind, result_bind, bind in H.
      destruct (parse_fuel fuel (group mm "twoPoint")) as [[rp|]|e'] eqn:Hr;
        try discriminate.
      injection H as <-. exact (IH _ _ Hr).
    + destruct (search passRE d'); [discriminate|].
      destruct (search psPenaltyRE d'); [discriminate|].
      destruct (search rushRE d'); discriminate.
  - unfold mbind, result_bind, bind in H. injection H as <-.
    exact (handle_challenge_raises _ _ Hc).
Qed.

(** X3. Whatever it is given, [parse_play_details] raises no exception
    other than [ValueError]. *)
Theorem classifier_raises_only_ValueError details e :
  parse_play_details details = Raise e -> e = ValueError.
Proof. apply parse_fuel_raises. Qed.

(** X4. When the challenge pattern is found in a description that holds
    the word "overturned" but not "overturned." (with its full stop),
    [parse_play_details] raises [ValueError]: the guard looks for the
    first and [str.index] for the second. *)
Theorem challenge_word_without_stop d :
  found (search challengeRE d) = true ->
  contains "overturned" d = true ->
  contains "overturned." d = false ->
  parse_play_details (VStr d) = Raise ValueError.
Proof.
  intros Hm Hword Hstop.
  destruct (some_by_check _ Hm) as [m Hs].
  unfold parse_play_details, fuel_for. cbn [parse_fuel].
  unfold handle_challenge, index. rewrite Hs, Hword.
  unfold contains in Hstop.
  destruct (find "overturned." d); [discriminate|]. reflexivity.
Qed.

Lemma challenge_word_without_stop_witness :
  parse_play_details
    (VStr "BradTo00 pass incomplete. Replay Assistant challenged the pass completion ruling, and the play was upheld. The call was not overturned")
  = Raise ValueError.
Proof. apply challenge_word_without_stop; vm_compute; reflexivity. Defined.

Lemma classifier_raises_only_ValueError_witness :
  parse_play_details
    (VStr "a. b challenged the play was upheld. overturned")
  = Raise ValueError /\ ValueError = ValueError.
Proof.
  assert (H : parse_play_details
                (VStr "a. b challenged the play was upheld. overturned")
              = Raise ValueError)
    by (apply raises_by_check; vm_compute; reflexivity).
  split; [exact H|].
  exact (classifier_raises_only_ValueError _ _ H).
Defined.
(** ** What the named groups capture *)

Lemma slice_to_add n1 n2 s :
  (n1 <= String.length s)%nat ->
  slice_to (n1 + n2) s = (slice_to n1 s ++ slice_to n2 (slice_from n1 s))%string.
Proof.
  revert s. induction n1 as [|n1 IH]; intros s Hn; simpl.
  - by destruct s, n2.
  - destruct s as [|c s]; simpl in *; [lia|].
    change (String c (slice_to (n1 + n2) s)
            = String c (slice_to n1 s ++ slice_to n2 (slice_from n1 s))%string).
    f_equal. apply IH. lia.
Qed.


(** [\S{6,8}\d{2}] consumes a player identifier *)
Lemma playerRE_consumes : consumes_only player_id playerRE.
Proof.
  intros s n cs cs' (n1 & n2 & cs1 & -> & H1 & H2).
  destruct H1 as (Hn1 & Hw1 & Hall1 & _).
  destruct H2 as (Hn2 & Hw2 & Hall2 & _).
  simpl in Hw1, Hw2. rewrite slice_from_length in Hn2.
  exists (slice_to n1 s), (slice_to n2 (slice_from n1 s)).
  split; [apply slice_to_add; lia|].
  rewrite !slice_to_length, slice_from_length.
  split; [lia|]. split; [exact Hall1|]. split; [lia | exact Hall2].
Qed.




(** *** An integer literal is one [int] accepts *)













(** *** Reading the captures of a search *)

Lemma captured_group P name r s v :
  Forall (consumes_only P) (bodies name r) ->
  captured r s name = Some v -> P v.
Proof.
  intros Hb. unfold captured.
  destruct (search r s) as [m|] eqn:Hs; [|discriminate].
  destruct (search_sound _ _ _ Hs) as (i & n & _ & _ & Hm).
  intros Hv. apply (matches_group P name r Hb _ _ _ _ Hm); [|exact Hv].
  intros v' H'. by rewrite lookup_empty in H'.
Qed.

Lemma Forall_eq_consumes P (r0 : regex) rs :
  consumes_only P r0 -> Forall (eq r0) rs -> Forall (consumes_only P) rs.
Proof. intros H0 Hrs. eapply Forall_impl; [exact Hrs|]. by intros r <-. Qed.

(** X5. A named group written around the player pattern [\S{6,8}\d{2}]
    captures, whenever it takes part in a match found by [re.search], six
    to eight characters that are not white space followed by two digits:
    so do rusher, passer, target, the tacklers and every other player
    field of the classifier. *)
Theorem captured_player_id r name s v :
  Forall (eq playerRE) (bodies name r) ->
  captured r s name = Some v -> player_id v.
Proof.
  intros Hb. apply captured_group.
  exact (Forall_eq_consumes _ _ _ playerRE_consumes Hb).
Qed.

Lemma captured_player_id_witness :
  player_id "McCaCh01".
Proof.
  apply (captured_player_id rushRE "rusher"
           "McCaCh01 left end for 12 yards (tackle by WagnBo00)").
  - vm_compute. repeat constructor.
  - vm_compute. reflexivity.
Defined.


(** ** The columns [_clean_features] returns *)

Lemma loc_to_features_types loc fs yl :
  _loc_to_features loc ≫= unpack2 = Ok (fs, yl) ->
  (fs = VNaN \/ exists s, fs = VStr s) /\
  (yl = VNaN \/ exists z, yl = VInt z).
Proof.
  unfold _loc_to_features.
  destruct (truthy loc).
  - destruct loc as [| |b|z|q|loc0]; try discriminate.
    + intros H. injection H as <- <-. split; [by left | right; by eexists].
    + intros H. injection H as <- <-. split; [by left | right; by eexists].
    + destruct (contains " " (strip loc0)).
      * destruct (split_ws (strip loc0)) as [|r0 [|r1 rest]];
          try discriminate.
        destruct (py_int (VStr r1)) as [n|e]; [|discriminate].
        destruct rest as [|r2 rest]; [|discriminate].
        intros H. injection H as <- <-.
        split; right; by eexists.
      * destruct (py_int (VStr (strip loc0))) as [n|e]; [|discriminate].
        intros H. injection H as <- <-. split; [by left | right; by eexists].
  - intros H. injection H as <- <-. split; by left.
Qed.

Lemma bool_vars_apart :
  Forall (fun k => (k ∉ int_vars) /\ (k ∉ float_vars) /\ (k ∉ string_vars) /\
                   k ∉ ["fieldSide"; "ydLine"; "secsElapsed"; "isInt";
                        "isFumble"; "isPenalty"; "team_epa"; "opp_epa"])
         bool_vars.
Proof.
  match goal with |- ?P => apply (bool_decide_unpack P) end.
  vm_compute. reflexivity.
Qed.

Lemma int_vars_apart :
  Forall (fun k => k = "ydLine" \/
                   ((k ∉ bool_vars) /\ (k ∉ float_vars) /\ (k ∉ string_vars) /\
                    k ∉ ["fieldSide"; "ydLine"; "secsElapsed"; "isInt";
                         "isFumble"; "isPenalty"; "team_epa"; "opp_epa"]))
         int_vars.
Proof.
  match goal with |- ?P => apply (bool_decide_unpack P) end.
  vm_compute. reflexivity.
Qed.

Lemma float_vars_apart :
  Forall (fun k => (k ∉ bool_vars) /\ (k ∉ int_vars) /\ (k ∉ string_vars) /\
                   k ∉ ["fieldSide"; "ydLine"; "secsElapsed"; "isInt";
                        "isFumble"; "isPenalty"; "team_epa"; "opp_epa"])
         float_vars.
Proof.
  match goal with |- ?P => apply (bool_decide_unpack P) end.
  vm_compute. reflexivity.
Qed.

Lemma string_vars_apart :
  Forall (fun k => k = "fieldSide" \/
                   ((k ∉ bool_vars) /\ (k ∉ int_vars) /\ (k ∉ float_vars) /\
                    k ∉ ["fieldSide"; "ydLine"; "secsElapsed"; "isInt";
                         "isFumble"; "isPenalty"; "team_epa"; "opp_epa"]))
         string_vars.
Proof.
  match goal with |- ?P => apply (bool_decide_unpack P) end.
  vm_compute. reflexivity.
Qed.

Lemma int_of_cases o :
  Some (int_of o) = Some VNaN \/ exists z, Some (int_of o) = Some (VInt z).
Proof.
  unfold int_of.
  destruct (py_int (default VNone o)) as [z|e];
    [right; exists z; reflexivity | left; reflexivity].
Qed.

Lemma string_of_cases o : exists v, Some (string_of o) = Some v /\ v <> VNone.
Proof.
  exists (string_of o). split; [reflexivity|]. unfold string_of.
  destruct o as [[| |b|z|q|s]|]; cbn; intros H; inversion H.
Qed.

Lemma int_of_null o :
  notnull (default VNone o) = false -> int_of o = VNaN.
Proof. destruct o as [[| |b|z|q|s]|]; cbn; intros H; first [reflexivity | inversion H]. Qed.

Lemma run_yards_before : Forall (preserves "rushYds") (take 20 clean_values).
Proof. preserves_list_tac. Qed.

Lemma run_yards_after : Forall (preserves "rushYds") (drop 21 clean_values).
Proof. preserves_list_tac. Qed.

Lemma run_flag_before :
  Forall (preserves "isRun") (drop 1 (take 20 clean_values)).
Proof. preserves_list_tac. Qed.

Lemma pass_yards_before : Forall (preserves "passYds") (take 15 clean_values).
Proof. preserves_list_tac. Qed.

Lemma pass_yards_after : Forall (preserves "passYds") (drop 16 clean_values).
Proof. preserves_list_tac. Qed.

Lemma pass_flag_before :
  Forall (preserves "isPass") (drop 1 (take 15 clean_values)).
Proof. preserves_list_tac. Qed.

Lemma epa_stmt k x y st st' :
  (a ← struct_item x; b ← struct_item y; v ← lift (py_sub a b); k ::= v) st
  = Ok (tt, st') ->
  exists a b v,
    st !! x = Some a /\ st !! y = Some b /\ py_sub a b = Ok v /\
    st' !! k = Some v.
Proof.
  rewrite bind_run. unfold struct_item.
  destruct (st !! x) as [a|]; [|intros H; inversion H].
  rewrite bind_run. destruct (st !! y) as [b|]; [|intros H; inversion H].
  rewrite bind_run. unfold lift.
  destruct (py_sub a b) as [v|e] eqn:Hv; [|intros H; inversion H].
  unfold struct_set. intros H. injection H as <-.
  exists a, b, v.
  split; [reflexivity|]. split; [reflexivity|]. split; [exact Hv|].
  apply lookup_insert_eq.
Qed.

Lemma epa_before k :
  k ∉ ["isInt"; "isFumble"; "isPenalty"] ->
  Forall (preserves k) (take 3 add_flags).
Proof.
  intros Hk.
  assert (k <> "isInt" /\ k <> "isFumble" /\ k <> "isPenalty") as (?&?&?).
  { rewrite !not_elem_of_cons in Hk. tauto. }
  preserves_list_tac.
Qed.

Lemma team_epa_after : Forall (preserves "team_epa") (drop 4 add_flags).
Proof. preserves_list_tac. Qed.

Lemma team_epa_before : Forall (preserves "team_epa") (take 3 add_flags).
Proof. preserves_list_tac. Qed.

Lemma opp_epa_before : Forall (preserves "opp_epa") (take 4 add_flags).
Proof. preserves_list_tac. Qed.

Lemma opp_epa_reads k :
  k ∉ ["isInt"; "isFumble"; "isPenalty"; "team_epa"] ->
  Forall (preserves k) (take 4 add_flags).
Proof.
  intros Hk.
  assert (k <> "isInt" /\ k <> "isFumble" /\ k <> "isPenalty" /\
          k <> "team_epa") as (?&?&?&?).
  { rewrite !not_elem_of_cons in Hk. tauto. }
  preserves_list_tac.
Qed.

Lemma py_sub_floats a b v w :
  (a = VNaN \/ exists q, a = VFloat q) ->
  (b = VNaN \/ exists q, b = VFloat q) ->
  py_sub a b = Ok v -> py_sub b a = Ok w ->
  match a, b with
  | VFloat x, VFloat y => v = VFloat (x - y)%Q /\ w = VFloat (y - x)%Q
  | _, _ => v = VNaN /\ w = VNaN
  end.
Proof.
  intros [->|[x ->]] [->|[y ->]]; cbn; intros Hv Hw;
    injection Hv as <-; injection Hw as <-; split; reflexivity.
Qed.

(** the expected points before and after a play, once converted *)
Lemma add_flags_epa s4 out :
  block add_flags s4 = Ok (tt, out) ->
  exists a b v w,
    s4 !! "exp_pts_after" = Some a /\ s4 !! "exp_pts_before" = Some b /\
    py_sub a b = Ok v /\ py_sub b a = Ok w /\
    out !! "team_epa" = Some v /\ out !! "opp_epa" = Some w.
Proof.
  intros H5.
  destruct (block_single_writer "team_epa" 3 add_flags _ s4 out H5 eq_refl
              team_epa_before team_epa_after)
    as (sa & sb & Ha & Hs & _ & Hteam).
  destruct (block_single_writer "opp_epa" 4 add_flags _ s4 out H5 eq_refl
              opp_epa_before ltac:(constructor))
    as (sa' & sb' & Ha' & Hs' & _ & Hopp).
  apply epa_stmt in Hs as (a & b & v & Hxa & Hxb & Hv & Hkv).
  apply epa_stmt in Hs' as (b' & a' & w & Hxb' & Hxa' & Hw & Hkw).
  rewrite (preserves_block "exp_pts_after" _
             (epa_before "exp_pts_after" ltac:(solve_notin)) _ _ _ Ha) in Hxa.
  rewrite (preserves_block "exp_pts_before" _
             (epa_before "exp_pts_before" ltac:(solve_notin)) _ _ _ Ha) in Hxb.
  rewrite (preserves_block "exp_pts_after" _
             (opp_epa_reads "exp_pts_after" ltac:(solve_notin)) _ _ _ Ha') in Hxa'.
  rewrite (preserves_block "exp_pts_before" _
             (opp_epa_reads "exp_pts_before" ltac:(solve_notin)) _ _ _ Ha') in Hxb'.
  rewrite Hxa in Hxa'. injection Hxa' as <-.
  rewrite Hxb in Hxb'. injection Hxb' as <-.
  exists a, b, v, w.
  rewrite Hteam, Hopp.
  exact (conj Hxa (conj Hxb (conj Hv (conj Hw (conj Hkv Hkw))))).
Qed.

Section Columns.
Variable float_of_string : string -> option (option Q).

Abbreviation clean_features := (_clean_features float_of_string).
Abbreviation typed_as := (typed float_of_string).

Lemma float_of_cases o :
  Some (float_of float_of_string o) = Some VNaN \/
  exists q, Some (float_of float_of_string o) = Some (VFloat q).
Proof.
  unfold float_of, py_float.
  destruct (default VNone o) as [| |b|z|q|s];
    first [left; reflexivity | right; eexists; reflexivity | idtac].
  destruct (float_of_string s) as [[q|]|];
    first [left; reflexivity | right; eexists; reflexivity].
Qed.

(** an entry written by "Third" and by nothing after it *)
Lemma out_typed k st out :
  k ∉ ["fieldSide"; "ydLine"; "secsElapsed"; "isInt"; "isFumble";
       "isPenalty"; "team_epa"; "opp_epa"] ->
  clean_features st = Ok out ->
  exists s1,
    block clean_values st = Ok (tt, s1) /\
    out !! k = typed_as k (s1 !! k).
Proof.
  intros Hk Hrun.
  destruct (clean_features_stages _ _ _ Hrun)
    as (s1 & s2 & s3 & s4 & H1 & H2 & H3 & H4 & H5).
  clear Hrun.
  destruct (clean_types_run float_of_string s1) as (s2' & H2' & Ltyped).
  rewrite H2 in H2'. injection H2' as <-.
  exists s1. split; [exact H1|].
  assert (Hk1 : k ∉ ["isInt"; "isFumble"; "isPenalty"; "team_epa";
                     "opp_epa"; "secsElapsed"]).
  { intros Hin. apply Hk. rewrite !elem_of_cons in *. tauto. }
  assert (Hk2 : k <> "fieldSide" /\ k <> "ydLine").
  { rewrite !not_elem_of_cons in Hk. tauto. }
  rewrite (last_stages_preserve float_of_string k s3 s4 out Hk1 H4 H5).
  rewrite (add_location_preserves k (proj1 Hk2) (proj2 Hk2) _ _ _ H3).
  apply Ltyped.
Qed.

(** the two entries written by [add_location] *)
Lemma location_columns st out :
  clean_features st = Ok out ->
  (out !! "fieldSide" = Some VNaN \/
   exists s, out !! "fieldSide" = Some (VStr s)) /\
  (out !! "ydLine" = Some VNaN \/ exists z, out !! "ydLine" = Some (VInt z)).
Proof.
  intros Hrun.
  destruct (clean_features_stages _ _ _ Hrun)
    as (s1 & s2 & s3 & s4 & H1 & H2 & H3 & H4 & H5).
  clear Hrun.
  destruct (clean_types_run float_of_string s1) as (s2' & H2' & Ltyped).
  rewrite H2 in H2'. injection H2' as <-.
  pose proof (Ltyped "isXP") as HXP2. rewrite typed_isXP in HXP2.
  rewrite (last_stages_preserve float_of_string "fieldSide" s3 s4 out ltac:(solve_notin)
             H4 H5).
  rewrite (last_stages_preserve float_of_string "ydLine" s3 s4 out ltac:(solve_notin)
             H4 H5).
  clear H4 H5 H1 H2 Ltyped.
  unfold bool_of in HXP2. destruct (is_True (default VNone (s1 !! "isXP"))).
  - rewrite (add_location_xp _ HXP2) in H3. injection H3 as <-.
    split; left.
    + rewrite lookup_insert_ne by discriminate. apply lookup_insert_eq.
    + apply lookup_insert_eq.
  - rewrite (add_location_other _ HXP2) in H3.
    destruct (_loc_to_features (get s2 "location") ≫= unpack2)
      as [[fs yl]|e] eqn:Hloc; [|discriminate].
    injection H3 as <-.
    destruct (loc_to_features_types _ _ _ Hloc) as [Hfs Hyl].
    rewrite lookup_insert_ne by discriminate.
    rewrite !lookup_insert_eq.
    split.
    + destruct Hfs as [->|[s ->]]; [by left | right; by eexists].
    + destruct Hyl as [->|[z ->]]; [by left | right; by eexists].
Qed.

Lemma typed_bool k o : k ∈ bool_vars -> typed_as k o = Some (bool_of o).
Proof.
  intros Hk.
  pose proof (proj1 (Forall_forall _ _) bool_vars_apart k Hk)
    as (Hi & Hf & Hs & _).
  unfold typed, through.
  rewrite (bool_decide_eq_true_2 _ Hk).
  rewrite (bool_decide_eq_false_2 _ Hi), (bool_decide_eq_false_2 _ Hf),
    (bool_decide_eq_false_2 _ Hs).
  reflexivity.
Qed.

Lemma typed_int k o :
  k ∈ int_vars -> k <> "ydLine" -> typed_as k o = Some (int_of o).
Proof.
  intros Hk Hne.
  destruct (proj1 (Forall_forall _ _) int_vars_apart k Hk)
    as [->|(Hb & Hf & Hs & _)]; [by destruct Hne|].
  unfold typed, through.
  rewrite (bool_decide_eq_true_2 _ Hk).
  rewrite (bool_decide_eq_false_2 _ Hb), (bool_decide_eq_false_2 _ Hf),
    (bool_decide_eq_false_2 _ Hs).
  reflexivity.
Qed.

Lemma typed_float k o :
  k ∈ float_vars -> typed_as k o = Some (float_of float_of_string o).
Proof.
  intros Hk.
  pose proof (proj1 (Forall_forall _ _) float_vars_apart k Hk)
    as (Hb & Hi & Hs & _).
  unfold typed, through.
  rewrite (bool_decide_eq_true_2 _ Hk).
  rewrite (bool_decide_eq_false_2 _ Hb), (bool_decide_eq_false_2 _ Hi),
    (bool_decide_eq_false_2 _ Hs).
  reflexivity.
Qed.

Lemma typed_string k o :
  k ∈ string_vars -> k <> "fieldSide" -> typed_as k o = Some (string_of o).
Proof.
  intros Hk Hne.
  destruct (proj1 (Forall_forall _ _) string_vars_apart k Hk)
    as [->|(Hb & Hi & Hf & _)]; [by destruct Hne|].
  unfold typed, through.
  rewrite (bool_decide_eq_true_2 _ Hk).
  rewrite (bool_decide_eq_false_2 _ Hb), (bool_decide_eq_false_2 _ Hi),
    (bool_decide_eq_false_2 _ Hf).
  reflexivity.
Qed.

(** X7. Whenever [_clean_features] returns, the columns named in its
    four lists have the types the lists announce: each of the 27 Boolean
    variables is a [bool], each integer variable an [int] or not-a-number,
    each float variable a [float] or not-a-number, and each string
    variable is present and never [None].  This holds also for [ydLine]
    and [fieldSide], which are written again after the conversion. *)
Theorem typed_columns st out k :
  clean_features st = Ok out ->
  (k ∈ bool_vars -> exists b, out !! k = Some (VBool b)) /\
  (k ∈ int_vars ->
     out !! k = Some VNaN \/ exists z, out !! k = Some (VInt z)) /\
  (k ∈ float_vars ->
     out !! k = Some VNaN \/ exists q, out !! k = Some (VFloat q)) /\
  (k ∈ string_vars -> exists v, out !! k = Some v /\ v <> VNone).
Proof.
  intros Hrun. pose proof (location_columns _ _ Hrun) as [Hfs Hyl].
  split; [|split; [|split]]; intros Hk.
  - pose proof (proj1 (Forall_forall _ _) bool_vars_apart k Hk)
      as (_ & _ & _ & Hlate).
    destruct (out_typed k _ _ Hlate Hrun) as (s1 & _ & ->).
    rewrite (typed_bool k _ Hk). eexists. reflexivity.
  - destruct (proj1 (Forall_forall _ _) int_vars_apart k Hk)
      as [->|(_ & _ & _ & Hlate)]; [exact Hyl|].
    destruct (out_typed k _ _ Hlate Hrun) as (s1 & _ & ->).
    rewrite (typed_int k _ Hk)
      by (intros ->; apply Hlate; rewrite !elem_of_cons; tauto).
    apply int_of_cases.
  - pose proof (proj1 (Forall_forall _ _) float_vars_apart k Hk)
      as (_ & _ & _ & Hlate).
    destruct (out_typed k _ _ Hlate Hrun) as (s1 & _ & ->).
    rewrite (typed_float k _ Hk).
    apply float_of_cases.
  - destruct (proj1 (Forall_forall _ _) string_vars_apart k Hk)
      as [->|(_ & _ & _ & Hlate)].
    + destruct Hfs as [Hfs|[s Hfs]]; rewrite Hfs; eexists;
        (split; [reflexivity | intros Hv; inversion Hv]).
    + destruct (out_typed k _ _ Hlate Hrun) as (s1 & _ & ->).
      rewrite (typed_string k _ Hk)
        by (intros ->; apply Hlate; rewrite !elem_of_cons; tauto).
      apply string_of_cases.
Qed.

(** *** A description that is not a string *)

Lemma clean_ptype_pointwise :
  pointwise (fun _ => ptype_of) clean_ptype.
Proof.
  intros var st. eexists. split; [reflexivity|]. split.
  - by rewrite lookup_insert_eq.
  - intros k Hne. by rewrite lookup_insert_ne.
Qed.

Lemma ptypes_nodup : NoDup ptypes.
Proof. apply (bool_decide_unpack (NoDup ptypes)). by vm_compute. Qed.

(** the statements before [isNoPlay] cannot raise and leave the
    description alone *)
Lemma before_isNoPlay st :
  exists sa,
    block (take 7 clean_values) st = Ok (tt, sa) /\
    sa !! "detail" = st !! "detail".
Proof.
  destruct (for_vars_pointwise _ _ ptypes clean_ptype_pointwise ptypes_nodup
              st) as (s0 & H0 & L0).
  eexists. split.
  - cbv [take clean_values]. rewrite block_cons, H0. cbv beta iota.
    reflexivity.
  - rewrite !lookup_insert_ne by discriminate. rewrite L0. reflexivity.
Qed.

(** X8. [_clean_features] raises [TypeError] whenever the entry [detail]
    is truthy and not a string: the guard [if struct.get('detail')] lets
    through a not-a-number, the cell of a play without description, and
    [' (no play)' in struct['detail']] then fails on it. *)
Theorem detail_not_a_string st v :
  st !! "detail" = Some v -> truthy v = true ->
  (forall s, v <> VStr s) ->
  clean_features st = Raise TypeError.
Proof.
  intros Hd Ht Hs.
  destruct (before_isNoPlay st) as (sa & Ha & Hda). rewrite Hd in Hda.
  unfold _clean_features, clean_features_body.
  rewrite block_cons.
  replace (block clean_values st) with (@Raise (unit * gmap string pyval) TypeError);
    [reflexivity|].
  symmetry.
  change clean_values
    with (take 7 clean_values ++ drop 7 clean_values)%list.
  rewrite block_app, Ha. cbv beta iota.
  cbv [drop clean_values]. rewrite block_cons.
  rewrite bind_run. unfold struct_get, get. rewrite Hda.
  cbv [default from_option id]. cbv beta iota.
  rewrite bind_run, Ht. rewrite bind_run. unfold struct_item. rewrite Hda.
  cbv beta iota. rewrite bind_run.
  destruct v as [| | | | |s]; try reflexivity.
  by destruct (Hs s).
Qed.

(** *** Yards of a run and of a pass *)

Lemma yards_stmt_at n flag yds st s1 :
  clean_values !! n = Some (yards_stmt flag yds) ->
  Forall (preserves yds) (take n clean_values) ->
  Forall (preserves yds) (drop (S n) clean_values) ->
  Forall (preserves flag) (drop 1 (take n clean_values)) ->
  (1 <= n)%nat -> flag ∈ ptypes ->
  block clean_values st = Ok (tt, s1) ->
  s1 !! yds =
  if truthy (ptype_of (st !! flag))
  then Some (if notnull (get st yds) then get st yds else VInt 0)
  else st !! yds.
Proof.
  intros Hn Hpre Hpost Hflag Hn1 Hin Hrun.
  destruct (block_single_writer yds n clean_values _ st s1 Hrun Hn Hpre
              Hpost) as (sa & sb & Ha & Hs & Hya & Hyb).
  rewrite Hyb. clear Hyb Hrun Hpre Hpost.
  assert (Hfa : sa !! flag = Some (ptype_of (st !! flag))).
  { destruct (for_vars_pointwise _ _ ptypes clean_ptype_pointwise
                ptypes_nodup st) as (s0 & H0 & L0).
    destruct n as [|n]; [lia|].
    change (take (S n) clean_values)
      with (for_vars ptypes clean_ptype :: take n (drop 1 clean_values))
      in Ha, Hflag.
    rewrite block_cons, H0 in Ha. cbv beta iota in Ha.
    change (drop 1 (?x :: ?l)) with l in Hflag.
    rewrite (preserves_block flag _ Hflag _ _ _ Ha), L0.
    unfold through. by rewrite (bool_decide_eq_true_2 _ Hin). }
  unfold yards_stmt in Hs. rewrite bind_run in Hs. unfold struct_item in Hs.
  rewrite Hfa in Hs. cbv beta iota in Hs.
  destruct (truthy (ptype_of (st !! flag))).
  - rewrite bind_run in Hs.
    unfold get. rewrite <- Hya.
    destruct (sa !! yds) as [y|]; [|discriminate].
    unfold struct_set in Hs. injection Hs as <-.
    rewrite lookup_insert_eq. reflexivity.
  - unfold mret, M_ret in Hs. injection Hs as <-. exact Hya.
Qed.

(** X9. A run that gained nothing has zero rushing yards and a play that
    is not a run has none: when no [rushYds] was captured,
    [_clean_features] returns 0 for a play whose flag [isRun] is set and
    not-a-number otherwise.  The same holds of [passYds] and [isPass]. *)
Theorem yards_default st out :
  clean_features st = Ok out ->
  (isnull (get st "rushYds") = true ->
   out !! "rushYds"
   = Some (if truthy (ptype_of (st !! "isRun")) then VInt 0 else VNaN)) /\
  (isnull (get st "passYds") = true ->
   out !! "passYds"
   = Some (if truthy (ptype_of (st !! "isPass")) then VInt 0 else VNaN)).
Proof.
  intros Hrun. split; intros Hnull.
  - destruct (out_typed "rushYds" _ _ ltac:(solve_notin) Hrun)
      as (s1 & H1 & Hout).
    rewrite Hout. clear Hout Hrun.
    rewrite (typed_int "rushYds" _ ltac:(solve_notin) ltac:(discriminate)).
    rewrite (yards_stmt_at 20 "isRun" "rushYds" st s1 eq_refl
               run_yards_before run_yards_after run_flag_before
               ltac:(lia) ltac:(solve_notin) H1).
    clear H1. unfold isnull in Hnull. apply negb_true_iff in Hnull.
    rewrite Hnull. destruct (truthy (ptype_of (st !! "isRun")));
      [reflexivity|].
    f_equal. apply int_of_null. exact Hnull.
  - destruct (out_typed "passYds" _ _ ltac:(solve_notin) Hrun)
      as (s1 & H1 & Hout).
    rewrite Hout. clear Hout Hrun.
    rewrite (typed_int "passYds" _ ltac:(solve_notin) ltac:(discriminate)).
    rewrite (yards_stmt_at 15 "isPass" "passYds" st s1 eq_refl
               pass_yards_before pass_yards_after pass_flag_before
               ltac:(lia) ltac:(solve_notin) H1).
    clear H1. unfold isnull in Hnull. apply negb_true_iff in Hnull.
    rewrite Hnull. destruct (truthy (ptype_of (st !! "isPass")));
      [reflexivity|].
    f_equal. apply int_of_null. exact Hnull.
Qed.

(** *** Expected points added *)

(** X10. The expected points added for the two sides are opposite: when
    [exp_pts_after] and [exp_pts_before] both convert to floats [a] and
    [b], [team_epa] is [a - b] and [opp_epa] is [b - a]; when either does
    not, both are not-a-number. *)
Theorem epa_opposite st out :
  _clean_features float_of_string st = Ok out ->
  match out !! "exp_pts_after", out !! "exp_pts_before" with
  | Some (VFloat a), Some (VFloat b) =>
      out !! "team_epa" = Some (VFloat (a - b)%Q) /\
      out !! "opp_epa" = Some (VFloat (b - a)%Q)
  | _, _ =>
      out !! "team_epa" = Some VNaN /\ out !! "opp_epa" = Some VNaN
  end.
Proof.
  intros Hrun.
  destruct (out_typed "exp_pts_after" _ _ ltac:(solve_notin) Hrun)
    as (s1 & H1 & Hafter).
  destruct (out_typed "exp_pts_before" _ _ ltac:(solve_notin) Hrun)
    as (s1' & H1' & Hbefore).
  rewrite H1 in H1'. injection H1' as <-.
  rewrite (typed_float "exp_pts_after" _ ltac:(solve_notin)) in Hafter.
  rewrite (typed_float "exp_pts_before" _ ltac:(solve_notin)) in Hbefore.
  destruct (clean_features_stages _ _ _ Hrun)
    as (s1' & s2 & s3 & s4 & _ & _ & _ & _ & H5).
  clear Hrun H1.
  destruct (add_flags_epa _ _ H5) as (a & b & v & w & Ha & Hb & Hv & Hw
                                      & Hteam & Hopp).
  rewrite <- (add_flags_preserves "exp_pts_after" ltac:(solve_notin)
                _ _ _ H5) in Ha.
  rewrite <- (add_flags_preserves "exp_pts_before" ltac:(solve_notin)
                _ _ _ H5) in Hb.
  clear H5.
  rewrite Ha, Hb, Hteam, Hopp.
  assert (Hca : a = VNaN \/ exists q, a = VFloat q).
  { rewrite Ha in Hafter. injection Hafter as ->.
    destruct (float_of_cases (s1 !! "exp_pts_after")) as [H|[q H]];
      injection H as ->; [by left | right; by exists q]. }
  assert (Hcb : b = VNaN \/ exists q, b = VFloat q).
  { rewrite Hb in Hbefore. injection Hbefore as ->.
    destruct (float_of_cases (s1 !! "exp_pts_before")) as [H|[q H]];
      injection H as ->; [by left | right; by exists q]. }
  clear Ha Hb Hteam Hopp Hafter Hbefore.
  pose proof (py_sub_floats a b v w Hca Hcb Hv Hw) as Hsub.
  destruct a as [| |?|?|x|?]; destruct b as [| |?|?|y|?];
    destruct Hsub as [-> ->]; split; reflexivity.
Qed.

End Columns.

Lemma typed_columns_witness :
  exists out,
    _clean_features (fun _ => None)
      (list_to_map
         [("quarter", VFloat 2); ("qtr_time_remain", VStr "10:30");
          ("location", VStr "NWE 35"); ("down", VFloat 1);
          ("detail",
           VStr "BradTo00 left end for 7 yards (tackle by SmitJo01)");
          ("isRun", VBool true); ("rusher", VStr "BradTo00");
          ("rushDir", VStr "left end"); ("rushYds", VStr "7");
          ("tackler1", VStr "SmitJo01")]) = Ok out /\
    (exists b, out !! "isPass" = Some (VBool b)) /\
    (out !! "rushYds" = Some VNaN \/ exists z, out !! "rushYds" = Some (VInt z)).
Proof.
  match goal with
  | |- exists out, ?run = Ok out /\ _ =>
      destruct (returns_with_spec run (fun _ => true)) as (out & Hrun & _);
        [vm_compute; reflexivity|]
  end.
  exists out. split; [exact Hrun|].
  split.
  - destruct (typed_columns _ _ out "isPass" Hrun) as (Hb & _).
    apply Hb. solve_notin.
  - destruct (typed_columns _ _ out "rushYds" Hrun) as (_ & Hi & _).
    apply Hi. solve_notin.
Defined.

(** a row without a description, as [pd.merge] leaves it *)
Lemma detail_not_a_string_witness :
  _clean_features (fun _ => None)
    (list_to_map [("quarter", VFloat 1); ("detail", VNaN)])
  = Raise TypeError.
Proof.
  apply (detail_not_a_string _ _ VNaN);
    [reflexivity | reflexivity | discriminate].
Defined.

(** a run for no gain *)
Lemma yards_default_witness :
  exists out,
    _clean_features (fun _ => None)
      (list_to_map
         [("quarter", VFloat 2); ("qtr_time_remain", VStr "10:30");
          ("location", VStr "NWE 35"); ("down", VFloat 1);
          ("detail", VStr "BradTo00 left end for no gain");
          ("isRun", VBool true); ("rusher", VStr "BradTo00");
          ("rushDir", VStr "left end"); ("rushYds", VNone)]) = Ok out /\
    out !! "rushYds" = Some (VInt 0).
Proof.
  match goal with
  | |- exists out, ?run = Ok out /\ _ =>
      destruct (returns_with_spec run (fun _ => true)) as (out & Hrun & _);
        [vm_compute; reflexivity|]
  end.
  exists out. split; [exact Hrun|].
  destruct (yards_default _ _ out Hrun) as [Hr _].
  refine (eq_trans (Hr _) _); vm_compute; reflexivity.
Defined.

Lemma epa_opposite_witness :
  exists out,
    _clean_features (fun _ => None)
      (list_to_map
         [("quarter", VFloat 2); ("qtr_time_remain", VStr "10:30");
          ("detail", VStr "BradTo00 left end for no gain");
          ("exp_pts_before", VFloat 1.5); ("exp_pts_after", VFloat 0.5)])
    = Ok out /\
    match out !! "exp_pts_after", out !! "exp_pts_before" with
    | Some (VFloat a), Some (VFloat b) =>
        out !! "team_epa" = Some (VFloat (a - b)%Q) /\
        out !! "opp_epa" = Some (VFloat (b - a)%Q)
    | _, _ =>
        out !! "team_epa" = Some VNaN /\ out !! "opp_epa" = Some VNaN
    end.
Proof.
  match goal with
  | |- exists out, ?run = Ok out /\ _ =>
      destruct (returns_with_spec run (fun _ => true)) as (out & Hrun & _);
        [vm_compute; reflexivity|]
  end.
  exists out. split; [exact Hrun|].
  exact (epa_opposite _ _ out Hrun).
Defined.
(** ** What a recognised play carries *)

Lemma update_lookup_other kvs :
  forall (st : gmap string pyval) k,
    k ∉ kvs.*1 -> update st kvs !! k = st !! k.
Proof.
  unfold update.
  induction kvs as [|[k' v] kvs IH]; intros st k Hk; [reflexivity|].
  cbn [foldl fst snd]. rewrite fmap_cons, not_elem_of_cons in Hk.
  destruct Hk as [Hne Hk]. rewrite (IH _ _ Hk).
  apply lookup_insert_ne. intros ->. by apply Hne.
Qed.

Lemma groupdict_keys r m : (groupdict r m).*1 = group_names r.
Proof.
  unfold groupdict. induction (group_names r) as [|n ns IH]; [reflexivity|].
  cbn. by rewrite IH.
Qed.

Lemma capture_flag fl r m st :
  fl ∉ group_names r -> capture fl r m st !! fl = Some (VBool true).
Proof.
  intros Hfl. unfold capture.
  rewrite update_lookup_other by (by rewrite groupdict_keys).
  apply lookup_insert_eq.
Qed.

Lemma capture_other k fl r m st :
  k ∉ group_names r -> k <> fl -> capture fl r m st !! k = st !! k.
Proof.
  intros Hk Hne. unfold capture.
  rewrite update_lookup_other by (by rewrite groupdict_keys).
  by apply lookup_insert_ne.
Qed.

(** no group of a pattern is called as a category flag or as one of the
    two fields every play has *)
Lemma flags_apart :
  Forall (fun c =>
            Forall (fun k => k ∉ group_names (matcher c))
                   ("isChallenge" :: "isLateral" :: (flag <$> priority)))
         priority.
Proof.
  match goal with |- ?P => apply (bool_decide_unpack P) end.
  vm_compute. reflexivity.
Qed.

Lemma challenge_apart :
  Forall (fun k => k ∉ group_names challengeRE) ["isChallenge"; "isLateral"].
Proof.
  match goal with |- ?P => apply (bool_decide_unpack P) end.
  vm_compute. reflexivity.
Qed.

Lemma handle_challenge_flag d st d' :
  handle_challenge d = Ok (st, d') ->
  exists b, st !! "isChallenge" = Some (VBool b).
Proof.
  unfold handle_challenge. intros H.
  assert (Hin : forall m,
             update (<["isChallenge" := VBool true]> ∅)
                    (groupdict challengeRE m) !! "isChallenge"
             = Some (VBool true)).
  { intros m. rewrite update_lookup_other.
    - apply lookup_insert_eq.
    - rewrite groupdict_keys.
      exact (proj1 (Forall_forall _ _) challenge_apart _
               ltac:(rewrite !elem_of_cons; tauto)). }
  destruct (search challengeRE d) as [m|].
  - destruct (contains "overturned" d).
    + destruct (index "overturned." d) as [i|]; [|discriminate].
      injection H as <- _. eexists. apply Hin.
    + injection H as <- _. eexists. apply Hin.
  - injection H as <- _. eexists. apply lookup_insert_eq.
Qed.

Lemma all_categories c : c ∈ priority.
Proof. destruct c; unfold priority; rewrite !elem_of_cons; tauto. Qed.

(** one branch of the cascade *)
Lemma capture_classified c m st0 lat b :
  st0 !! "isChallenge" = Some (VBool b) ->
  classified (capture (flag c) (matcher c) m
                (<["isLateral" := VBool lat]> st0)).
Proof.
  intros Hch.
  pose proof (proj1 (Forall_forall _ _) flags_apart c (all_categories c))
    as Hc.
  rewrite Forall_forall in Hc.
  assert (Hfl : flag c ∉ group_names (matcher c)).
  { apply Hc. do 2 right. apply list_elem_of_fmap_2, all_categories. }
  assert (Hne : "isChallenge" <> flag c /\ "isLateral" <> flag c)
    by (destruct c; split; discriminate).
  split; [|split].
  - exists b. rewrite capture_other.
    + rewrite lookup_insert_ne by discriminate. exact Hch.
    + apply Hc. left.
    + apply Hne.
  - exists lat. rewrite capture_other.
    + apply lookup_insert_eq.
    + apply Hc. right. left.
    + apply Hne.
  - exists c. by apply capture_flag.
Qed.

Lemma union_classified (rp st : gmap string pyval) :
  classified rp -> classified (rp ∪ st).
Proof.
  intros ([b Hb] & [l Hl] & [c Hc]).
  split; [|split].
  - exists b. by apply lookup_union_Some_l.
  - exists l. by apply lookup_union_Some_l.
  - exists c. by apply lookup_union_Some_l.
Qed.

Lemma parse_fuel_classified fuel :
  forall details st,
    parse_fuel fuel details = Ok (Some st) -> classified st.
Proof.
  induction fuel as [|fuel IH]; intros details st H; [discriminate|].
  cbn [parse_fuel] in H. destruct details as [| | | | |d]; try discriminate.
  destruct (handle_challenge d) as [[st0 d']|e'] eqn:Hc; [|discriminate].
  destruct (handle_challenge_flag _ _ _ Hc) as [b Hb]. clear Hc.
  unfold mbind at 1, result_bind at 1, bind at 1 in H.
  destruct (search kickoffRE d') as [m|];
    [injection H as <-; exact (capture_classified Kickoff m _ _ _ Hb)|].
  destruct (search timeoutRE d') as [m|];
    [injection H as <-; exact (capture_classified Timeout m _ _ _ Hb)|].
  destruct (search fgRE d') as [m|];
    [injection H as <-; exact (capture_classified FieldGoal m _ _ _ Hb)|].
  destruct (search puntRE d') as [m|];
    [injection H as <-; exact (capture_classified Punt m _ _ _ Hb)|].
  destruct (search kneelRE d') as [m|];
    [injection H as <-; exact (capture_classified Kneel m _ _ _ Hb)|].
  destruct (search spikeRE d') as [m|];
    [injection H as <-; exact (capture_classified Spike m _ _ _ Hb)|].
  destruct (search extraPointRE d') as [m|];
    [injection H as <-; exact (capture_classified ExtraPoint m _ _ _ Hb)|].
  destruct (search twoPointRE d') as [mm|].
  - unfold mbind, result_bind, bind in H.
    assert (Hst : classified
              (<["twoPointSuccess" := group mm "twoPointSuccess"]>
                 (<["isTwoPoint" := VBool true]>
                    (<["isLateral" := VBool (contains "lateral" d')]> st0)))).
    { split; [|split].
      - exists b. rewrite !lookup_insert_ne by discriminate. exact Hb.
      - eexists. rewrite !lookup_insert_ne by discriminate.
        apply lookup_insert_eq.
      - exists TwoPointConversion. cbn [flag].
        rewrite lookup_insert_ne by discriminate. apply lookup_insert_eq. }
    destruct (parse_fuel fuel (group mm "twoPoint")) as [[rp|]|e'] eqn:Hr;
      [| |discriminate].
    + injection H as <-. apply union_classified. exact (IH _ _ Hr).
    + injection H as <-. exact Hst.
  - destruct (search passRE d') as [m|];
      [injection H as <-; exact (capture_classified Pass m _ _ _ Hb)|].
    destruct (search psPenaltyRE d') as [m|];
      [injection H as <-;
       exact (capture_classified PresnapPenalty m _ _ _ Hb)|].
    destruct (search rushRE d') as [m|]; [|discriminate].
    injection H as <-. exact (capture_classified Run m _ _ _ Hb).
Qed.

(** X11. Every dictionary [parse_play_details] returns holds the Booleans
    [isChallenge] and [isLateral] and the flag, set to [True], of at least
    one category: no group of a pattern is named as one of them, so the
    captures cannot overwrite them. *)
Theorem recognised_play_is_classified details st :
  parse_play_details details = Ok (Some st) -> classified st.
Proof. apply parse_fuel_classified. Qed.

Lemma recognised_play_is_classified_witness :
  exists st,
    parse_play_details (VStr "BradTo00 kneels for -1 yards") = Ok (Some st) /\
    classified st.
Proof.
  destruct (returns_with_spec
              (parse_play_details (VStr "BradTo00 kneels for -1 yards"))
              found) as ([st|] & Hrun & Hf);
    [vm_compute; reflexivity | | discriminate Hf].
  exists st. split; [exact Hrun|].
  exact (recognised_play_is_classified _ _ Hrun).
Defined.
(** ** Filling the clock in [expand_details] *)

Lemma clock_set v row : clock (set_clock v row) = v.
Proof. unfold clock, set_clock, get. by rewrite lookup_insert_eq. Qed.

Lemma first_valid_notnull df v :
  first_valid_clock df = Some v -> notnull v = true.
Proof.
  induction df as [|row rest IH]; simpl; [discriminate|].
  destruct (notnull (clock row)) eqn:Hn; [|exact IH].
  intros H. injection H as <-. exact Hn.
Qed.

(** after the backward fill the first row holds the first valid clock *)
Lemma bfill_clock_head df :
  match bfill_clock df with
  | next :: _ =>
      if notnull (clock next) then Some (clock next) else None
  | [] => None
  end = first_valid_clock df.
Proof.
  induction df as [|row rest IH]; [reflexivity|].
  cbn [bfill_clock first_valid_clock]. unfold isnull.
  destruct (notnull (clock row)) eqn:Hrow; cbn [negb].
  - by rewrite Hrow.
  - rewrite <- IH. destruct (bfill_clock rest) as [|next rest'].
    + by rewrite Hrow.
    + destruct (notnull (clock next)) eqn:Hnext.
      * by rewrite clock_set, Hnext.
      * by rewrite Hrow.
Qed.

Lemma bfill_clock_lookup df :
  forall i row,
    df !! i = Some row ->
    bfill_clock df !! i
    = Some (if isnull (clock row)
            then match first_valid_clock (drop (S i) df) with
                 | Some v => set_clock v row
                 | None => row
                 end
            else row).
Proof.
  induction df as [|row0 rest IH]; intros i row Hi; [discriminate|].
  destruct i as [|i].
  - injection Hi as ->. change (drop 1 (row :: rest)) with rest.
    rewrite <- bfill_clock_head. cbn [bfill_clock].
    change ((?x :: ?l) !! 0%nat) with (Some x).
    destruct (isnull (clock row)); [|reflexivity].
    destruct (bfill_clock rest) as [|next rest']; [reflexivity|].
    by destruct (notnull (clock next)).
  - cbn [bfill_clock]. cbn in Hi. exact (IH i row Hi).
Qed.

(** X12. What the three clock statements of [expand_details] make of a
    frame with at least one row: the first row is given the clock "15:00"
    whatever it held; any later row with a clock keeps it; a later row
    without one takes the first clock found below it, and when there is
    none, "0:00" if its own quarter is 4 and "15:00" otherwise.  Nothing
    but the clock of a row is touched. *)
Theorem fill_clock_rows row0 rest i row :
  (row0 :: rest) !! i = Some row ->
  fill_clock (row0 :: rest) !! i
  = Some
      match i with
      | O => set_clock (VStr "15:00") row
      | S _ =>
          if isnull (clock row) then
            set_clock
              match first_valid_clock (drop (S i) (row0 :: rest)) with
              | Some v => v
              | None =>
                  VStr (if py_eq (get row "quarter") (VInt 4)
                        then "0:00" else "15:00")
              end
              row
          else row
      end.
Proof.
  intros Hi. unfold fill_clock. rewrite list_lookup_fmap.
  cbn [seed_clock].
  destruct i as [|i].
  - injection Hi as ->.
    rewrite (bfill_clock_lookup (set_clock (VStr "15:00") row :: rest) 0
               (set_clock (VStr "15:00") row) eq_refl).
    unfold isnull. rewrite clock_set. cbn [notnull negb fmap option_fmap option_map].
    unfold default_clock, isnull. rewrite clock_set. reflexivity.
  - rewrite (bfill_clock_lookup (set_clock (VStr "15:00") row0 :: rest)
               (S i) row Hi).
    change (drop (S (S i)) (set_clock (VStr "15:00") row0 :: rest))
      with (drop (S i) rest).
    change (drop (S (S i)) (row0 :: rest)) with (drop (S i) rest).
    cbn [fmap option_fmap option_map]. f_equal.
    unfold default_clock.
    destruct (isnull (clock row)) eqn:Hnull; [|by rewrite Hnull].
    destruct (first_valid_clock (drop (S i) rest)) as [v|] eqn:Hv.
    + unfold isnull. rewrite clock_set, (first_valid_notnull _ _ Hv).
      reflexivity.
    + rewrite Hnull. reflexivity.
Qed.

(** a clock missing between two plays is taken from the play below *)
Lemma fill_clock_rows_witness :
  clock <$>
    fill_clock
      [ <["qtr_time_remain" := VStr "14:55"]> (<["quarter" := VInt 1]> ∅);
        <["qtr_time_remain" := VNaN]> (<["quarter" := VInt 1]> ∅);
        <["qtr_time_remain" := VStr "14:20"]> (<["quarter" := VInt 1]> ∅) ]
    !! 1%nat
  = Some (VStr "14:20").
Proof.
  rewrite (fill_clock_rows
             (<["qtr_time_remain" := VStr "14:55"]>
                (<["quarter" := VInt 1]> ∅))
             [ <["qtr_time_remain" := VNaN]> (<["quarter" := VInt 1]> ∅);
               <["qtr_time_remain" := VStr "14:20"]>
                 (<["quarter" := VInt 1]> ∅) ]
             1 (<["qtr_time_remain" := VNaN]> (<["quarter" := VInt 1]> ∅))
             eq_refl).
  vm_compute. reflexivity.
Defined.


